(** * LidarSynth: the sensor loop and the note renderer of SinSynth.cpp

    A shallow embedding of [AudioUnitInstrumentExample/SinSynth.cpp]:
    the globals fed by the sensor thread ([c_buf], [moving_average]), the
    subscriber loop started by the constructor, and [TestNote::Render].

    Numbers.  The C++ code computes on [float] and [double].  The embedding
    keeps the special values of that arithmetic (the infinities and NaN, with
    the rules by which they arise and propagate) and computes exactly on the
    finite values: a finite value is a rational, and no rounding, overflow
    or signed zero is modelled.  Every statement below about [Render], [push]
    and [pow5] is a statement of this exact arithmetic.

    Which frame finds the amplitude of a released note spent is decided by
    the last bit of every subtraction.  For the statements on that frame
    [TestNote::Render] is embedded a second time, as [Render_rounded], with
    every operation rounded to the [float] or [double] C++ computes it
    in. *)

From Stdlib Require Import ZArith QArith Qround Qpower Qminmax.
From Stdlib Require Import SpecFloat.
From Stdlib Require Import List Bool Lia Lqa.
Import ListNotations.

Open Scope Z_scope.

(** ** Numbers *)

Inductive fnum : Type :=
| Fin (q : Q)
| PInf
| NInf
| NaN.

(** Equality of numbers: equality of rationals on the finite values. *)
Definition feq (x y : fnum) : Prop :=
  match x, y with
  | Fin a, Fin b => (a == b)%Q
  | PInf, PInf | NInf, NInf | NaN, NaN => True
  | _, _ => False
  end.

Definition is_finite (x : fnum) : bool :=
  match x with Fin _ => true | _ => false end.

(** The infinity of sign [c]; a zero sign gives NaN (0 * inf, 0 / 0). *)
Definition inf_signed (c : comparison) : fnum :=
  match c with Gt => PInf | Lt => NInf | Eq => NaN end.

Definition Qsign (q : Q) : comparison := (q ?= 0)%Q.

Definition Qltb (a b : Q) : bool :=
  match (a ?= b)%Q with Lt => true | _ => false end.

Definition fopp (x : fnum) : fnum :=
  match x with
  | Fin q => Fin (- q)
  | PInf => NInf
  | NInf => PInf
  | NaN => NaN
  end.

Definition fadd (x y : fnum) : fnum :=
  match x, y with
  | NaN, _ | _, NaN => NaN
  | Fin a, Fin b => Fin (a + b)
  | PInf, NInf | NInf, PInf => NaN
  | PInf, _ | _, PInf => PInf
  | NInf, _ | _, NInf => NInf
  end.

Definition fsub (x y : fnum) : fnum := fadd x (fopp y).

Definition fmul (x y : fnum) : fnum :=
  match x, y with
  | NaN, _ | _, NaN => NaN
  | Fin a, Fin b => Fin (a * b)
  | Fin a, PInf | PInf, Fin a => inf_signed (Qsign a)
  | Fin a, NInf | NInf, Fin a => inf_signed (CompOpp (Qsign a))
  | PInf, PInf | NInf, NInf => PInf
  | PInf, NInf | NInf, PInf => NInf
  end.

(** Division.  A finite value over zero is the infinity of the dividend's
    sign, and 0/0 is NaN: nothing traps. *)
Definition fdiv (x y : fnum) : fnum :=
  match x, y with
  | NaN, _ | _, NaN => NaN
  | Fin a, Fin b =>
      if Qeq_bool b 0 then inf_signed (Qsign a) else Fin (a / b)
  | Fin _, PInf | Fin _, NInf => Fin 0
  | PInf, Fin b => if Qltb b 0 then NInf else PInf
  | NInf, Fin b => if Qltb b 0 then PInf else NInf
  | _, _ => NaN
  end.

(** [x < y]; false as soon as one side is NaN. *)
Definition flt (x y : fnum) : bool :=
  match x, y with
  | NaN, _ | _, NaN => false
  | Fin a, Fin b => Qltb a b
  | NInf, NInf | PInf, _ | _, NInf => false
  | NInf, _ | _, PInf => true
  end.

Definition fgt (x y : fnum) : bool := flt y x.

Definition of_int (z : Z) : fnum := Fin (inject_Z z).

Definition INT_MIN : Z := - 2 ^ 31.
Definition INT_MAX : Z := 2 ^ 31 - 1.

(** [int(x)]: truncation toward zero.  C++ leaves the conversion of a value
    outside the range of [int] undefined; the model gives it the value the
    x86 conversion instruction returns there. *)
Definition to_int (x : fnum) : Z :=
  match x with
  | Fin q =>
      let z := Z.quot (Qnum q) (Zpos (Qden q)) in
      if (INT_MIN <=? z) && (z <=? INT_MAX) then z else INT_MIN
  | _ => INT_MIN
  end.

(** [(int) u] for a [UInt32] [u]. *)
Definition int_of_UInt32 (u : Z) : Z :=
  let m := u mod 2 ^ 32 in
  if m <? 2 ^ 31 then m else m - 2 ^ 32.

(** ** Exceptions over a mutable state

    The C++ code mutates globals and objects and throws; what was written
    before a [throw] stays written.  A computation takes the state and
    returns a result together with the state it leaves. *)

Inductive exn : Type :=
| thread_aborted
| out_of_range
| device_error.

Inductive result (A : Type) : Type :=
| Ok (a : A)
| Raise (e : exn).
Arguments Ok {A} a.
Arguments Raise {A} e.

Definition M (S A : Type) : Type := S -> result A * S.

Definition ret {S A} (a : A) : M S A := fun s => (Ok a, s).

Definition bind {S A B} (c : M S A) (k : A -> M S B) : M S B :=
  fun s =>
    match c s with
    | (Ok a, s') => k a s'
    | (Raise e, s') => (Raise e, s')
    end.

Definition raise {S A} (e : exn) : M S A := fun s => (Raise e, s).

Definition get {S} : M S S := fun s => (Ok s, s).

Definition modify {S} (f : S -> S) : M S unit := fun s => (Ok tt, f s).

(** [try { c } catch (those e with handles e = true) { h }] *)
Definition try_catch {S A} (c : M S A) (handles : exn -> bool) (h : M S A)
  : M S A :=
  fun s =>
    match c s with
    | (Ok a, s') => (Ok a, s')
    | (Raise e, s') => if handles e then h s' else (Raise e, s')
    end.

Declare Scope monad_scope.
Delimit Scope monad_scope with monad.
Notation "x <- c ;; k" := (bind c (fun x => k))
  (at level 61, c at next level, right associativity) : monad_scope.
Notation "c ;;; k" := (bind c (fun _ => k))
  (at level 61, right associativity) : monad_scope.
Open Scope monad_scope.

Definition catch_all : exn -> bool := fun _ => true.

Definition catch_thread_aborted (e : exn) : bool :=
  match e with thread_aborted => true | _ => false end.

Fixpoint for_each {S A} (l : list A) (body : A -> M S unit) : M S unit :=
  match l with
  | [] => ret tt
  | a :: rest => body a ;;; for_each rest body
  end.

(** ** The globals written by the sensor thread *)

Definition buf_size : Z := 128.
Definition beta : fnum := Fin (9 # 10).
Definition twopi : fnum := Fin (2 * (314159265358979 # 100000000000000)).

(** Modelled from the spec: boost::circular_buffer<std::int32_t>, whose
    header is not part of the sources.  The buffer holds at most its
    capacity, oldest element first; [push_back] on a full buffer overwrites
    the oldest element; an access outside the filled range signals an error
    to the reader (section 9: exception-as-fallback for out-of-range buffer
    access), which is what the handler around every access in
    [TestNote::Render] is written for. *)
Definition circular_buffer : Type := list Z.

Definition cb_push_back (capacity : Z) (x : Z) (cb : circular_buffer)
  : circular_buffer :=
  if capacity <=? 0 then cb
  else if Z.of_nat (length cb) <? capacity then cb ++ [x]
  else tl cb ++ [x].

Definition cb_at {S} (cb : circular_buffer) (idx : Z) : M S Z :=
  if (0 <=? idx) && (idx <? Z.of_nat (length cb))
  then ret (nth (Z.to_nat idx) cb 0)
  else raise out_of_range.

Record Globals : Type := mkGlobals {
  c_buf : circular_buffer;
  moving_average : fnum
}.

(** [boost::circular_buffer<std::int32_t> c_buf(buf_size);
    float moving_average = 0;] *)
Definition initial_globals : Globals :=
  {| c_buf := []; moving_average := Fin 0 |}.

(** ** The subscriber thread (constructor of [SinSynth], lines 87-102)

    The thread opens the device, starts the scan and enters the loop; the
    model starts at the loop. *)

(** One sample of a scan: [c_buf.push_back(sample.distance)] and the update
    of the moving average,
    [moving_average = beta * moving_average + (1 - beta) * sample.distance + 1.]
    (the print to [std::cout] is left out). *)
Definition push (distance : Z) : M Globals unit :=
  modify (fun g =>
    {| c_buf := cb_push_back buf_size distance (c_buf g);
       moving_average :=
         fadd (fadd (fmul beta (moving_average g))
                    (fmul (fsub (of_int 1) beta) (of_int distance)))
              (Fin 1) |}).

(** What [device.get_scan()] does at one call: it returns the samples of a
    scan or throws the device's error. *)
Inductive scan_result : Type :=
| scan_ok (samples : list Z)
| scan_fails.

Definition get_scan (r : scan_result) : M Globals (list Z) :=
  match r with
  | scan_ok samples => ret samples
  | scan_fails => raise device_error
  end.

(** [check_exit()], with the value of the atomic [exit_flag] it reads. *)
Definition check_exit {S} (exit_flag : bool) : M S unit :=
  if exit_flag then raise thread_aborted else ret tt.

(** The statement under [while (true)]: the whole [try ... catch
    (thread_aborted&) { }]. *)
Definition subscriber_body (ev : scan_result * bool) : M Globals unit :=
  try_catch
    (samples <- get_scan (fst ev) ;;
     for_each samples push ;;;
     check_exit (snd ev))
    catch_thread_aborted
    (ret tt).

(** [while (true) ...] run against the scans the device delivers, each
    paired with the value of [exit_flag] at the [check_exit] that follows
    it.  [Ok tt] is the thread still inside the loop, waiting for the next
    scan; [Raise e] is the thread function left by the exception [e]. *)
Fixpoint subscriber (events : list (scan_result * bool)) : M Globals unit :=
  match events with
  | [] => ret tt
  | ev :: rest => subscriber_body ev ;;; subscriber rest
  end.

(** ** The note *)

Inductive SynthNoteState : Type :=
| kNoteState_Attacked
| kNoteState_Sostenutoed
| kNoteState_ReleasedButSostenutoed
| kNoteState_ReleasedButSustained
| kNoteState_Released
| kNoteState_FastReleased
| kNoteState_Free.

(** The members of [TestNote] that [Render] uses (declared in SinSynth.h). *)
Record TestNote : Type := mkNote {
  state : SynthNoteState;
  phase : fnum;
  amp : fnum;
  maxamp : fnum;
  fast_dn_slope : fnum
}.

(** What the base classes answer during one call of [Render]:
    [SampleRate()], [Frequency()] and the three global parameters. *)
Record Env : Type := mkEnv {
  SampleRate : fnum;
  Frequency : fnum;
  globalVol : fnum;
  globalAmpAttack : fnum;
  globalAmpRelease : fnum
}.

(** [AudioBufferList]: the announced number of buffers and the sample data
    of the buffers that are there. *)
Record AudioBufferList : Type := mkABL {
  mNumberBuffers : Z;
  mBuffers : list (list fnum)
}.

(** The memory [Render] works on: the note, the buffers of bus 0 and the
    calls of [NoteEnded] made so far. *)
Record RS : Type := mkRS {
  rs_note : TestNote;
  rs_abl : AudioBufferList;
  rs_ended : list Z
}.

Definition noErr : Z := 0.
Definition no_endFrame : Z := 4294967295.

Fixpoint add_at (frame : nat) (out : fnum) (data : list fnum) : list fnum :=
  match data, frame with
  | [], _ => []
  | x :: rest, O => fadd x out :: rest
  | x :: rest, S k => x :: add_at k out rest
  end.

Fixpoint add_chan (chan frame : nat) (out : fnum) (bufs : list (list fnum))
  : list (list fnum) :=
  match bufs, chan with
  | [], _ => []
  | b :: rest, O => add_at frame out b :: rest
  | b :: rest, S c => b :: add_chan c frame out rest
  end.

(** [p[frame] += out] where [p] points to the data of buffer [chan].  The
    host hands over buffers of at least [inNumFrames] samples; a store
    outside the data that is there is left out of the model. *)
Definition store (chan : nat) (frame : Z) (out : fnum) : M RS unit :=
  modify (fun s =>
    mkRS (rs_note s)
         (mkABL (mNumberBuffers (rs_abl s))
                (add_chan chan (Z.to_nat frame) out (mBuffers (rs_abl s))))
         (rs_ended s)).

Definition set_amp (a : fnum) : M RS unit :=
  modify (fun s =>
    let n := rs_note s in
    mkRS (mkNote (state n) (phase n) a (maxamp n) (fast_dn_slope n))
         (rs_abl s) (rs_ended s)).

Definition set_phase (p : fnum) : M RS unit :=
  modify (fun s =>
    let n := rs_note s in
    mkRS (mkNote (state n) p (amp n) (maxamp n) (fast_dn_slope n))
         (rs_abl s) (rs_ended s)).

(** [NoteEnded(endFrame)] is a method of the base class [SynthNote], whose
    code is not part of the sources.  The model keeps the record of the
    calls, in order, each with its argument; what the base class then does
    with the note is outside the model, where the members of the note are
    those the statements of [Render] leave. *)
Definition NoteEnded (frame : Z) : M RS unit :=
  modify (fun s => mkRS (rs_note s) (rs_abl s) (rs_ended s ++ [frame])).

(** [for (UInt32 frame = first; frame < first + count; ++frame) body], with
    the local variable the body updates. *)
Fixpoint for_frames {S L} (count : nat) (frame : Z)
    (body : Z -> L -> M S L) (local : L) : M S L :=
  match count with
  | O => ret local
  | Datatypes.S k =>
      local' <- body frame local ;;
      for_frames k (frame + 1) body local'
  end.

(** [Render] reads the globals of the sensor thread and asks its base
    classes for the sample rate, the frequency and the parameters.  Within
    one call the model holds them fixed: [g] and [env]. *)
Section Render.

Variable g : Globals.
Variable env : Env.

(** [try { val = (c_buf[idx] < 1000) ? c_buf[idx] : 1000; }
    catch (...) { val = 0.; }] *)
Definition sample_at (idx : Z) : M RS fnum :=
  try_catch
    (c <- cb_at (c_buf g) idx ;;
     if c <? 1000
     then (v <- cb_at (c_buf g) idx ;; ret (of_int v))
     else ret (of_int 1000))
    catch_all
    (ret (Fin 0)).

(** [int idx = int(phase/twopi*buf_size);] and the read at [idx]. *)
Definition read_val (ph : fnum) : M RS fnum :=
  sample_at (to_int (fmul (fdiv ph twopi) (of_int buf_size))).

(** [(val - moving_average) / moving_average * amp * globalVol] *)
Definition out_sample (val a : fnum) : fnum :=
  fmul (fmul (fdiv (fsub val (moving_average g)) (moving_average g)) a)
       (globalVol env).

Definition freq : fnum :=
  fmul (Frequency env) (fdiv twopi (SampleRate env)).

(** [left[frame] += out; if (right) right[frame] += out;] *)
Definition emit (right : option nat) (frame : Z) (out : fnum) : M RS unit :=
  store 0%nat frame out ;;;
  match right with
  | Some r => store r frame out
  | None => ret tt
  end.

(** Body of the loop of the attacked and sustained states, lines 267-282. *)
Definition attack_frame (right : option nat) (frame : Z) (_ : unit)
  : M RS unit :=
  s <- get ;;
  let n := rs_note s in
  let a1 :=
    if flt (amp n) (maxamp n)
    then fadd (amp n)
              (fdiv (maxamp n) (fmul (SampleRate env) (globalAmpAttack env)))
    else amp n in
  let a2 := if fgt a1 (maxamp n) then maxamp n else a1 in
  set_amp a2 ;;;
  val <- read_val (phase n) ;;
  let out := out_sample val a2 in
  let p1 := fadd (phase n) freq in
  let p2 := if fgt p1 twopi then fsub p1 twopi else p1 in
  set_phase p2 ;;;
  emit right frame out.

(** Body of the loop of the released state, lines 292-307. *)
Definition release_frame (right : option nat) (frame : Z) (endFrame : Z)
  : M RS Z :=
  s <- get ;;
  let n := rs_note s in
  let a1 :=
    if fgt (amp n) (Fin 0)
    then fsub (amp n)
              (fdiv (maxamp n)
                    (fmul (SampleRate env) (globalAmpRelease env)))
    else amp n in
  let endFrame' :=
    if fgt (amp n) (Fin 0) then endFrame
    else if endFrame =? no_endFrame then frame else endFrame in
  set_amp a1 ;;;
  val <- read_val (phase n) ;;
  let out := out_sample val a1 in
  set_phase (fadd (phase n) freq) ;;;
  emit right frame out ;;;
  ret endFrame'.

(** Body of the loop of the fast-released state, lines 323-337. *)
Definition fast_release_frame (right : option nat) (frame : Z) (endFrame : Z)
  : M RS Z :=
  s <- get ;;
  let n := rs_note s in
  let a1 :=
    if fgt (amp n) (Fin 0) then fadd (amp n) (fast_dn_slope n) else amp n in
  let endFrame' :=
    if fgt (amp n) (Fin 0) then endFrame
    else if endFrame =? no_endFrame then frame else endFrame in
  set_amp a1 ;;;
  val <- read_val (phase n) ;;
  let out := out_sample val a1 in
  set_phase (fadd (phase n) freq) ;;;
  emit right frame out ;;;
  ret endFrame'.

(** [if (endFrame != 0xFFFFFFFF) NoteEnded(endFrame);] *)
Definition report_end (endFrame : Z) : M RS unit :=
  if endFrame =? no_endFrame then ret tt else NoteEnded endFrame.

(** [TestNote::Render], lines 232-351.  The result is the [OSStatus]. *)
Definition Render (inNumFrames : Z) : M RS Z :=
  s <- get ;;
  let numChans := int_of_UInt32 (mNumberBuffers (rs_abl s)) in
  if numChans >? 2 then ret (-1)
  else
    let right := if numChans =? 2 then Some 1%nat else None in
    let count := Z.to_nat inNumFrames in
    match state (rs_note s) with
    | kNoteState_Attacked
    | kNoteState_Sostenutoed
    | kNoteState_ReleasedButSostenutoed
    | kNoteState_ReleasedButSustained =>
        for_frames count 0 (attack_frame right) tt ;;;
        ret noErr
    | kNoteState_Released =>
        endFrame <- for_frames count 0 (release_frame right) no_endFrame ;;
        report_end endFrame ;;;
        ret noErr
    | kNoteState_FastReleased =>
        endFrame <- for_frames count 0 (fast_release_frame right)
                      no_endFrame ;;
        report_end endFrame ;;;
        ret noErr
    | kNoteState_Free => ret noErr
    end.

End Render.

(** * Definitions used by the statements *)

(** ** The sensor globals and the ring buffer *)

Definition average_at_least (lo : Q) (g : Globals) : Prop :=
  match moving_average g with
  | Fin a => (lo <= a)%Q
  | _ => False
  end.

Definition delivered (scans : list (list Z * bool))
  : list (scan_result * bool) :=
  map (fun p => (scan_ok (fst p), snd p)) scans.

Definition in_filled_range (cb : circular_buffer) (i : Z) : bool :=
  (0 <=? i) && (i <? Z.of_nat (length cb)).

(** The value the signal computation uses for index [i]. *)
Definition sample_value (cb : circular_buffer) (i : Z) : fnum :=
  if in_filled_range cb i then
    let r := nth (Z.to_nat i) cb 0 in
    if 1000 <=? r then of_int 1000 else of_int r
  else Fin 0.

(** ** One frame and one block, seen from the note *)

(** The amplitude after one frame of each of the three loops. *)
Definition attack_amp (env : Env) (n : TestNote) : fnum :=
  let a1 :=
    if flt (amp n) (maxamp n)
    then fadd (amp n)
              (fdiv (maxamp n) (fmul (SampleRate env) (globalAmpAttack env)))
    else amp n in
  if fgt a1 (maxamp n) then maxamp n else a1.

Definition release_amp (env : Env) (n : TestNote) : fnum :=
  if fgt (amp n) (Fin 0)
  then fsub (amp n)
            (fdiv (maxamp n) (fmul (SampleRate env) (globalAmpRelease env)))
  else amp n.

Definition fast_release_amp (n : TestNote) : fnum :=
  if fgt (amp n) (Fin 0) then fadd (amp n) (fast_dn_slope n) else amp n.

Definition wrap_phase (env : Env) (p : fnum) : fnum :=
  let p1 := fadd p (freq env) in
  if fgt p1 twopi then fsub p1 twopi else p1.

Definition next_endFrame (a : fnum) (frame endFrame : Z) : Z :=
  if fgt a (Fin 0) then endFrame
  else if endFrame =? no_endFrame then frame else endFrame.

(** What one frame of each loop does to the note. *)
Definition attack_note (env : Env) (n : TestNote) : TestNote :=
  mkNote (state n) (wrap_phase env (phase n)) (attack_amp env n)
         (maxamp n) (fast_dn_slope n).

Definition release_note (env : Env) (n : TestNote) : TestNote :=
  mkNote (state n) (fadd (phase n) (freq env)) (release_amp env n)
         (maxamp n) (fast_dn_slope n).

Definition fast_release_note (env : Env) (n : TestNote) : TestNote :=
  mkNote (state n) (fadd (phase n) (freq env)) (fast_release_amp n)
         (maxamp n) (fast_dn_slope n).

(** The local [endFrame] after [count] frames starting at [frame]. *)
Fixpoint end_frames (step : TestNote -> TestNote) (count : nat) (frame : Z)
    (endFrame : Z) (n : TestNote) : Z :=
  match count with
  | O => endFrame
  | S k =>
      end_frames step k (frame + 1) (next_endFrame (amp n) frame endFrame)
                 (step n)
  end.

(** The note, the status and the calls of [NoteEnded] that [Render] leaves,
    state by state. *)
Definition frame_step (env : Env) (st : SynthNoteState)
  : TestNote -> TestNote :=
  match st with
  | kNoteState_Attacked | kNoteState_Sostenutoed
  | kNoteState_ReleasedButSostenutoed | kNoteState_ReleasedButSustained =>
      attack_note env
  | kNoteState_Released => release_note env
  | kNoteState_FastReleased => fast_release_note env
  | kNoteState_Free => fun n => n
  end.

Definition reported (st : SynthNoteState) (env : Env) (count : nat)
    (n : TestNote) : list Z :=
  match st with
  | kNoteState_Released | kNoteState_FastReleased =>
      let e := end_frames (frame_step env st) count 0 no_endFrame n in
      if e =? no_endFrame then [] else [e]
  | _ => []
  end.

(** ** Inputs of the examples *)

(** 44100 Hz, 440 Hz, full volume, attack and
    release time 0.001 s; the globals after one reading of 500; a bus of one
    buffer of one sample; notes of maximum amplitude 1. *)
Definition test_env : Env :=
  mkEnv (Fin 44100) (Fin 440) (Fin 1) (Fin (1 # 1000)) (Fin (1 # 1000)).

Definition half_turn_env : Env :=
  mkEnv (Fin 2) (Fin 1) (Fin 1) (Fin 1) (Fin 1).

Definition fed_globals : Globals := snd (push 500 initial_globals).

Definition test_note (st : SynthNoteState) (ph a : Q) : TestNote :=
  mkNote st (Fin ph) (Fin a) (Fin 1) (Fin (- (1 # 4))).

Definition mono (frames : nat) : AudioBufferList :=
  mkABL 1 [repeat (Fin 0) frames].

(** The buffers after one frame rendered before any reading has arrived. *)
Definition startup_frame (st : SynthNoteState) (a : Q) : list (list fnum) :=
  mBuffers (rs_abl (snd (Render initial_globals test_env 1
                           (mkRS (test_note st 0 a) (mono 1) [])))).

(** ** The states of the switch in [Render] *)

Definition attack_like (st : SynthNoteState) : bool :=
  match st with
  | kNoteState_Attacked | kNoteState_Sostenutoed
  | kNoteState_ReleasedButSostenutoed | kNoteState_ReleasedButSustained =>
      true
  | _ => false
  end.

Definition release_like (st : SynthNoteState) : bool :=
  match st with
  | kNoteState_Released | kNoteState_FastReleased => true
  | _ => false
  end.

Definition amp_in (lo hi : Q) (n : TestNote) : Prop :=
  exists a, amp n = Fin a /\ (lo <= a <= hi)%Q.

(** The floor under the amplitude in each state: 0 where the amplitude only
    rises or is not touched, minus one decrement in the two release states. *)
Definition amp_floor (st : SynthNoteState) (m sr rt fd : Q) : Q :=
  match st with
  | kNoteState_Released => - (m / (sr * rt))
  | kNoteState_FastReleased => fd
  | _ => 0
  end.

(** ** The voice allocator *)

(** [static const UInt32 kMaxActiveNotes = 8;] *)
Definition kMaxActiveNotes : nat := 8.

(** The calls a note makes into its base class [SynthNote]. *)
Inductive base_call : Type :=
| SynthNote_Release (inFrame : Z)
| SynthNote_Kill (inFrame : Z).

(** Modelled from the spec: a voice of the pool of section 3, which the
    instrument base classes keep and the sources do not contain.  A voice is
    the note with its pitch, the time it was triggered and the calls it has
    made into its base class. *)
Record Voice : Type := mkVoice {
  v_note : TestNote;
  v_pitch : Z;
  v_triggered : nat;
  v_calls : list base_call
}.

Definition base (c : base_call) (v : Voice) : Voice :=
  mkVoice (v_note v) (v_pitch v) (v_triggered v) (v_calls v ++ [c]).

(** [TestNote::Release], [TestNote::FastRelease] and [TestNote::Kill]
    (lines 208-230): each forwards the frame to the base class and writes no
    member of [TestNote]; [FastRelease] forwards to [SynthNote::Release]. *)
Definition TestNote_Release (inFrame : Z) : Voice -> Voice :=
  base (SynthNote_Release inFrame).

Definition TestNote_FastRelease (inFrame : Z) : Voice -> Voice :=
  base (SynthNote_Release inFrame).

Definition TestNote_Kill (inFrame : Z) : Voice -> Voice :=
  base (SynthNote_Kill inFrame).

Definition is_free (v : Voice) : bool :=
  match state (v_note v) with kNoteState_Free => true | _ => false end.

(** Modelled from the spec: the voices that count as active and can be
    stolen are the active and the released ones (section 4.3). *)
Definition is_active (v : Voice) : bool :=
  match state (v_note v) with
  | kNoteState_Free | kNoteState_FastReleased => false
  | _ => true
  end.

Fixpoint find_free (pool : list Voice) : option nat :=
  match pool with
  | [] => None
  | v :: rest =>
      if is_free v then Some O else option_map S (find_free rest)
  end.

Definition active_count (pool : list Voice) : nat :=
  length (filter is_active pool).

(** Modelled from the spec: the victim is the oldest-triggered active
    voice (section 4.3), the first of them on a tie. *)
Fixpoint oldest_active (pool : list Voice) : option nat :=
  match pool with
  | [] => None
  | v :: rest =>
      match oldest_active rest with
      | Some j =>
          if is_active v
             && (v_triggered v <=? v_triggered (nth j rest v))%nat
          then Some O else Some (S j)
      | None => if is_active v then Some O else None
      end
  end.

Fixpoint update (i : nat) (f : Voice -> Voice) (pool : list Voice)
  : list Voice :=
  match pool, i with
  | [], _ => []
  | v :: rest, O => f v :: rest
  | v :: rest, S k => v :: update k f rest
  end.

Definition set_state (st : SynthNoteState) (n : TestNote) : TestNote :=
  mkNote st (phase n) (amp n) (maxamp n) (fast_dn_slope n).

(** Modelled from the spec: the steal of a voice (section 4.3).  The
    allocator notifies the note and forces it to the fast-released state. *)
Definition force_fast_release (inFrame : Z) (v : Voice) : Voice :=
  let v' := TestNote_FastRelease inFrame v in
  mkVoice (set_state kNoteState_FastReleased (v_note v'))
          (v_pitch v') (v_triggered v') (v_calls v').

(** Modelled from the spec: a claimed voice (section 4.3) has amplitude 0,
    phase 0 and the active state. *)
Definition claimed (pitch : Z) (clock : nat) (old : Voice) : Voice :=
  mkVoice (mkNote kNoteState_Attacked (Fin 0) (Fin 0)
                  (maxamp (v_note old)) (fast_dn_slope (v_note old)))
          pitch clock [].

(** Modelled from the spec: note-on of the voice allocator (section 4.3),
    which lives in the instrument base classes and is not part of the
    sources.  A free voice is claimed if there is one; if none is free and
    the active count equals the capacity, the oldest-triggered active or
    released voice is forced to the fast-released state and its slot is
    then given to the new note.  The result lists the pools the call goes
    through, in order. *)
Definition noteOn (pitch : Z) (clock : nat) (inFrame : Z) (pool : list Voice)
  : list (list Voice) :=
  match find_free pool with
  | Some i => [update i (claimed pitch clock) pool]
  | None =>
      if (active_count pool =? kMaxActiveNotes)%nat then
        match oldest_active pool with
        | Some victim =>
            let stolen := update victim (force_fast_release inFrame) pool in
            [stolen; update victim (claimed pitch clock) stolen]
        | None => []
        end
      else []
  end.

(** A held voice of the examples, triggered at time [t]. *)
Definition held_voice (t : nat) : Voice :=
  mkVoice (test_note kNoteState_Attacked 0 1) 60 t [].

(** * The arithmetic of [float] and [double]

    [float] and [double] are the binary32 and binary64 formats of IEEE 754.
    A finite value of either format is a rational, and an operation of the
    C++ code on finite values is the exact operation followed by the
    rounding of its result to the format of the operation: to the nearest
    value of the format, a tie to the value with the even mantissa, past the
    largest finite value to the infinity.  [SpecFloat] of the standard
    library is that rounding; the definitions below apply it to a rational.
    A zero keeps no sign. *)

(** The value of the finite number of sign [s], mantissa [m] and exponent
    [e]: plus or minus [m * 2^e]. *)
Definition Q_of_finite (s : bool) (m : positive) (e : Z) : Q :=
  let z := if s then Zneg m else Zpos m in
  match e with
  | Z0 => z # 1
  | Zpos p => (z * 2 ^ e) # 1
  | Zneg p => z # (2 ^ p)
  end.

Definition of_spec_float (x : spec_float) : fnum :=
  match x with
  | S754_zero _ => Fin 0
  | S754_infinity false => PInf
  | S754_infinity true => NInf
  | S754_nan => NaN
  | S754_finite s m e => Fin (Q_of_finite s m e)
  end.

(** The rational [q] rounded to the format of [prec] bits of mantissa and
    infinities at the exponent [emax]: the correctly rounded quotient of its
    numerator by its denominator. *)
Definition round_Q (prec emax : Z) (q : Q) : spec_float :=
  match Qnum q with
  | Z0 => S754_zero false
  | Zpos n =>
      SFdiv prec emax (S754_finite false n 0) (S754_finite false (Qden q) 0)
  | Zneg n =>
      SFdiv prec emax (S754_finite true n 0) (S754_finite false (Qden q) 0)
  end.

Definition round_to (prec emax : Z) (x : fnum) : fnum :=
  match x with
  | Fin q => of_spec_float (round_Q prec emax q)
  | _ => x
  end.

(** A value stored in a [float], in a [double]. *)
Definition to_float (x : fnum) : fnum := round_to 24 128 x.
Definition to_double (x : fnum) : fnum := round_to 53 1024 x.

(** [x + y], [x - y], [x * y], [x / y] computed in [double]. *)
Definition double_add (x y : fnum) : fnum := to_double (fadd x y).
Definition double_sub (x y : fnum) : fnum := to_double (fsub x y).
Definition double_mul (x y : fnum) : fnum := to_double (fmul x y).
Definition double_div (x y : fnum) : fnum := to_double (fdiv x y).

(** [x + y], [x - y], [x / y] computed in [float]. *)
Definition float_add (x y : fnum) : fnum := to_float (fadd x y).
Definition float_sub (x y : fnum) : fnum := to_float (fsub x y).
Definition float_div (x y : fnum) : fnum := to_float (fdiv x y).

(** [const double twopi = 2.0 * 3.14159265358979;]: the literals are
    rounded to [double] and multiplied there. *)
Definition twopi_double : fnum :=
  double_mul (to_double (Fin 2))
             (to_double (Fin (314159265358979 # 100000000000000))).

(** ** [TestNote::Render] with the rounding of every operation

    The same function as [Render] above, statement by statement, with every
    operation rounded to the type C++ computes it in.  [float]: [left],
    [right], [globalVol], [globalAmpAttack], [globalAmpRelease], [val],
    [out] and the global [moving_average]; [double]: [sampleRate], [freq],
    [twopi].  The members [phase], [amp], [maxamp] and [fast_dn_slope] are
    declared in SinSynth.h, which is not part of the sources; they are taken
    as [double], so that the operations that update them are operations of
    [double] whatever the type of the other operand.  An operation of two
    [float]s is computed in [float]. *)

Fixpoint add_at_float (frame : nat) (out : fnum) (data : list fnum)
  : list fnum :=
  match data, frame with
  | [], _ => []
  | x :: rest, O => float_add x out :: rest
  | x :: rest, S k => x :: add_at_float k out rest
  end.

Fixpoint add_chan_float (chan frame : nat) (out : fnum)
    (bufs : list (list fnum)) : list (list fnum) :=
  match bufs, chan with
  | [], _ => []
  | b :: rest, O => add_at_float frame out b :: rest
  | b :: rest, S c => b :: add_chan_float c frame out rest
  end.

(** [p[frame] += out] on a buffer of [float]. *)
Definition store_float (chan : nat) (frame : Z) (out : fnum) : M RS unit :=
  modify (fun s =>
    mkRS (rs_note s)
         (mkABL (mNumberBuffers (rs_abl s))
                (add_chan_float chan (Z.to_nat frame) out
                   (mBuffers (rs_abl s))))
         (rs_ended s)).

(** [left[frame] += out; if (right) right[frame] += out;] *)
Definition emit_float (right : option nat) (frame : Z) (out : fnum)
  : M RS unit :=
  store_float 0%nat frame out ;;;
  match right with
  | Some r => store_float r frame out
  | None => ret tt
  end.

Section RenderRounded.

Variable g : Globals.
Variable env : Env.

(** [float globalVol = GetGlobalParameter(kGlobalVolumeParam);] and the
    two locals that follow it. *)
Definition globalVol_float : fnum := to_float (globalVol env).
Definition globalAmpAttack_float : fnum := to_float (globalAmpAttack env).
Definition globalAmpRelease_float : fnum := to_float (globalAmpRelease env).

(** [double sampleRate = SampleRate();] *)
Definition sampleRate_double : fnum := to_double (SampleRate env).

(** [double freq = Frequency() * (twopi/sampleRate);] *)
Definition freq_double : fnum :=
  double_mul (Frequency env) (double_div twopi_double sampleRate_double).

(** [int idx = int(phase/twopi*buf_size);] and the read at [idx], stored in
    the [float] [val]. *)
Definition read_val_float (ph : fnum) : M RS fnum :=
  v <- sample_at g
         (to_int (double_mul (double_div ph twopi_double) (of_int buf_size))) ;;
  ret (to_float v).

(** [float out = (val - moving_average) / moving_average * amp * globalVol;]
    the difference and the quotient are of [float]s, the two products have
    the [double] [amp] on the left. *)
Definition out_sample_float (val a : fnum) : fnum :=
  to_float
    (double_mul
       (double_mul
          (float_div (float_sub val (moving_average g)) (moving_average g))
          a)
       globalVol_float).

(** [maxamp / (sampleRate * globalAmpAttack)] and
    [maxamp / (sampleRate * globalAmpRelease)] *)
Definition attack_increment (n : TestNote) : fnum :=
  double_div (maxamp n) (double_mul sampleRate_double globalAmpAttack_float).

Definition release_decrement (n : TestNote) : fnum :=
  double_div (maxamp n) (double_mul sampleRate_double globalAmpRelease_float).

(** Body of the loop of the attacked and sustained states, lines 267-282. *)
Definition attack_frame_rounded (right : option nat) (frame : Z) (_ : unit)
  : M RS unit :=
  s <- get ;;
  let n := rs_note s in
  let a1 :=
    if flt (amp n) (maxamp n)
    then double_add (amp n) (attack_increment n)
    else amp n in
  let a2 := if fgt a1 (maxamp n) then maxamp n else a1 in
  set_amp a2 ;;;
  val <- read_val_float (phase n) ;;
  let out := out_sample_float val a2 in
  let p1 := double_add (phase n) freq_double in
  let p2 := if fgt p1 twopi_double then double_sub p1 twopi_double else p1 in
  set_phase p2 ;;;
  emit_float right frame out.

(** Body of the loop of the released state, lines 292-307. *)
Definition release_frame_rounded (right : option nat) (frame : Z)
    (endFrame : Z) : M RS Z :=
  s <- get ;;
  let n := rs_note s in
  let a1 :=
    if fgt (amp n) (Fin 0)
    then double_sub (amp n) (release_decrement n)
    else amp n in
  let endFrame' :=
    if fgt (amp n) (Fin 0) then endFrame
    else if endFrame =? no_endFrame then frame else endFrame in
  set_amp a1 ;;;
  val <- read_val_float (phase n) ;;
  let out := out_sample_float val a1 in
  set_phase (double_add (phase n) freq_double) ;;;
  emit_float right frame out ;;;
  ret endFrame'.

(** Body of the loop of the fast-released state, lines 323-337. *)
Definition fast_release_frame_rounded (right : option nat) (frame : Z)
    (endFrame : Z) : M RS Z :=
  s <- get ;;
  let n := rs_note s in
  let a1 :=
    if fgt (amp n) (Fin 0)
    then double_add (amp n) (fast_dn_slope n)
    else amp n in
  let endFrame' :=
    if fgt (amp n) (Fin 0) then endFrame
    else if endFrame =? no_endFrame then frame else endFrame in
  set_amp a1 ;;;
  val <- read_val_float (phase n) ;;
  let out := out_sample_float val a1 in
  set_phase (double_add (phase n) freq_double) ;;;
  emit_float right frame out ;;;
  ret endFrame'.

(** [TestNote::Render], lines 232-351, with the rounding. *)
Definition Render_rounded (inNumFrames : Z) : M RS Z :=
  s <- get ;;
  let numChans := int_of_UInt32 (mNumberBuffers (rs_abl s)) in
  if numChans >? 2 then ret (-1)
  else
    let right := if numChans =? 2 then Some 1%nat else None in
    let count := Z.to_nat inNumFrames in
    match state (rs_note s) with
    | kNoteState_Attacked
    | kNoteState_Sostenutoed
    | kNoteState_ReleasedButSostenutoed
    | kNoteState_ReleasedButSustained =>
        for_frames count 0 (attack_frame_rounded right) tt ;;;
        ret noErr
    | kNoteState_Released =>
        endFrame <- for_frames count 0 (release_frame_rounded right)
                      no_endFrame ;;
        report_end endFrame ;;;
        ret noErr
    | kNoteState_FastReleased =>
        endFrame <- for_frames count 0 (fast_release_frame_rounded right)
                      no_endFrame ;;
        report_end endFrame ;;;
        ret noErr
    | kNoteState_Free => ret noErr
    end.

End RenderRounded.

(** ** Definitions used by the statements on the rounded arithmetic *)

(** The amplitude [a] after [j] subtractions of [d], each rounded to
    [double]; after [j] additions of [fd]. *)
Definition after_decrements (d : fnum) (j : nat) (a : fnum) : fnum :=
  Nat.iter j (fun x => double_sub x d) a.

Definition after_additions (fd : fnum) (j : nat) (a : fnum) : fnum :=
  Nat.iter j (fun x => double_add x fd) a.

(** An update applied to the amplitudes that are positive: the
    [if (amp > 0.0) amp ...] of the two release loops. *)
Definition while_positive (op : fnum -> fnum) (a : fnum) : fnum :=
  if fgt a (Fin 0) then op a else a.

(** The local [endFrame] after [count] frames starting at [frame], for an
    amplitude that [step] takes from one frame to the next. *)
Fixpoint end_frame_of (step : fnum -> fnum) (count : nat) (frame : Z)
    (endFrame : Z) (a : fnum) : Z :=
  match count with
  | O => endFrame
  | S k =>
      end_frame_of step k (frame + 1) (next_endFrame a frame endFrame)
                   (step a)
  end.

(** Inputs of the examples: 10 Hz and a release time of 1 s; 48000 Hz and
    a release time of 1/64 s. *)
Definition slow_env : Env :=
  mkEnv (Fin 10) (Fin 1) (Fin 1) (Fin 1) (Fin 1).

Definition studio_env : Env :=
  mkEnv (Fin 48000) (Fin 440) (Fin 1) (Fin (1 # 64)) (Fin (1 # 64)).

(** A fast-released note of amplitude 1 whose slope is the [double] next
    to -0.1. *)
Definition stolen_note : TestNote :=
  mkNote kNoteState_FastReleased (Fin 0) (Fin 1) (Fin 1)
         (to_double (Fin (- (1 # 10)))).

(** A released note of amplitude and maximum amplitude 1 before a block of
    [frames] frames on one channel. *)
Definition released_block (frames : nat) : RS :=
  mkRS (test_note kNoteState_Released 0 1) (mono frames) [].

(** * The rest of the file *)

(** ** [pow5] (line 47) *)

(** [inline double pow5(double x) { double x2 = x*x; return x2*x2*x; }] *)
Definition pow5 (x : fnum) : fnum :=
  let x2 := fmul x x in
  fmul (fmul x2 x2) x.

(** ** The parameters (lines 56-61, 81-84, 152-201) *)

Definition kGlobalVolumeParam : Z := 0.
Definition kGlobalAmpAttackParam : Z := 1.
Definition kGlobalAmpReleaseParam : Z := 2.

Inductive CFStringRef : Type :=
| kGlobalVolumeName
| kGlobalAmpAttackName
| kGlobalAmpReleaseName.

(** The fields of [AudioUnitParameterInfo] that [GetParameterInfo] assigns,
    and the name, which [FillInParameterName] sets. *)
Record AudioUnitParameterInfo : Type := mkInfo {
  cfNameString : option CFStringRef;
  flags : Z;
  unit : Z;
  minValue : Q;
  maxValue : Q;
  defaultValue : Q
}.

(** The constants and the helper of the audio unit headers that
    [GetParameterInfo] uses are not part of the sources: they are taken as
    they come. *)
Section ParameterInfo.

Variable kAudioUnitScope_Global : Z.
Variable kAudioUnitErr_InvalidScope : Z.
Variable kAudioUnitErr_InvalidParameter : Z.
Variable kAudioUnitParameterFlag_DisplaySquareRoot : Z.
Variable kAudioUnitParameterFlag_IsWritable : Z.
Variable kAudioUnitParameterFlag_IsReadable : Z.
Variable kAudioUnitParameterUnit_LinearGain : Z.
Variable kAudioUnitParameterUnit_Seconds : Z.
Variable SetAudioUnitParameterDisplayType : Z -> Z -> Z.
Variable FillInParameterName :
  AudioUnitParameterInfo -> CFStringRef -> bool -> AudioUnitParameterInfo.

(** The three assignments to [flags], on 32 bits. *)
Definition parameter_flags : Z :=
  ((SetAudioUnitParameterDisplayType 0
      kAudioUnitParameterFlag_DisplaySquareRoot mod 2 ^ 32
    + kAudioUnitParameterFlag_IsWritable) mod 2 ^ 32
   + kAudioUnitParameterFlag_IsReadable) mod 2 ^ 32.

(** One case of the switch: the name is filled in, then the five fields
    are assigned. *)
Definition fill (info : AudioUnitParameterInfo) (name : CFStringRef)
    (u : Z) (lo hi dflt : Q) : AudioUnitParameterInfo :=
  let named := FillInParameterName info name false in
  mkInfo (cfNameString named) parameter_flags u lo hi dflt.

(** [SinSynth::GetParameterInfo]: the status and the parameter info it
    leaves. *)
Definition GetParameterInfo (inScope inParameterID : Z)
    (outParameterInfo : AudioUnitParameterInfo)
  : Z * AudioUnitParameterInfo :=
  if negb (inScope =? kAudioUnitScope_Global)
  then (kAudioUnitErr_InvalidScope, outParameterInfo)
  else if inParameterID =? kGlobalVolumeParam
  then (noErr,
        fill outParameterInfo kGlobalVolumeName
             kAudioUnitParameterUnit_LinearGain 0 1 1)
  else if inParameterID =? kGlobalAmpAttackParam
  then (noErr,
        fill outParameterInfo kGlobalAmpAttackName
             kAudioUnitParameterUnit_Seconds (1 # 1000) 5 (1 # 1000))
  else if inParameterID =? kGlobalAmpReleaseParam
  then (noErr,
        fill outParameterInfo kGlobalAmpReleaseName
             kAudioUnitParameterUnit_Seconds (1 # 1000) 5 (1 # 1000))
  else (kAudioUnitErr_InvalidParameter, outParameterInfo).

End ParameterInfo.

(** Modelled from the spec: the parameter host of section 6, whose class
    is not part of the sources.  It keeps a value under each parameter id,
    and a read returns the value last set. *)
Definition ParameterStore : Type := Z -> option Q.

(** Modelled from the spec: [count] parameters, ids 0 to count - 1. *)
Definition UseIndexedParameters (count : Z) : ParameterStore :=
  fun id => if (0 <=? id) && (id <? count) then Some 0%Q else None.

(** Modelled from the spec: a write of the parameter host (section 6). *)
Definition SetParameter (id : Z) (value : Q) (store : ParameterStore)
  : ParameterStore :=
  fun k => if k =? id then Some value else store k.

(** The parameters as the constructor leaves them (lines 81-84). *)
Definition SinSynth_parameters : ParameterStore :=
  SetParameter kGlobalAmpReleaseParam 0
    (SetParameter kGlobalAmpAttackParam 0
       (SetParameter kGlobalVolumeParam 1 (UseIndexedParameters 3))).

(** Modelled from the spec: a read of the parameter host (section 6), as
    [Render] makes it in lines 239-241. *)
Definition GetGlobalParameter (store : ParameterStore) (id : Z) : fnum :=
  match store id with
  | Some v => Fin v
  | None => Fin 0
  end.

(** The answers of the base classes to a [Render] that runs at sample rate
    [sr] on a note of frequency [fr] with the parameters [store]. *)
Definition render_env (sr fr : fnum) (store : ParameterStore) : Env :=
  mkEnv sr fr (GetGlobalParameter store kGlobalVolumeParam)
        (GetGlobalParameter store kGlobalAmpAttackParam)
        (GetGlobalParameter store kGlobalAmpReleaseParam).

(** ** Definitions used by the further statements *)

(** The buffers after the two stores of one frame. *)
Definition emit_bufs (right : option nat) (frame : Z) (out : fnum)
    (bufs : list (list fnum)) : list (list fnum) :=
  let bufs1 := add_chan 0 (Z.to_nat frame) out bufs in
  match right with
  | Some r => add_chan r (Z.to_nat frame) out bufs1
  | None => bufs1
  end.

(** The [right] pointer of [Render] for a channel count. *)
Definition right_of (abl : AudioBufferList) : option nat :=
  if int_of_UInt32 (mNumberBuffers abl) =? 2 then Some 1%nat else None.

(** The last [n] elements of a list. *)
Definition lastn {A} (n : nat) (l : list A) : list A :=
  skipn (length l - n) l.

(** The scans of a run with every flag cleared. *)
Definition without_flags (events : list (scan_result * bool))
  : list (scan_result * bool) :=
  map (fun ev => (fst ev, false)) events.

Definition scan_failed (ev : scan_result * bool) : bool :=
  match fst ev with scan_fails => true | scan_ok _ => false end.

(** The moving average is finite and lies between [lo] and [hi]. *)
Definition average_within (lo hi : Q) (g : Globals) : Prop :=
  match moving_average g with
  | Fin a => (lo <= a <= hi)%Q
  | _ => False
  end.

(** The globals of the examples after the readings 0, 3 and 120. *)
Definition three_readings : Globals :=
  snd (for_each [0; 3; 120] push initial_globals).

(** The sample a frame adds: read at the index of the old phase, scaled by
    the new amplitude. *)
Definition frame_out (g : Globals) (env : Env) (step : TestNote -> TestNote)
    (n : TestNote) : fnum :=
  out_sample g env
    (sample_value (c_buf g)
       (to_int (fmul (fdiv (phase n) twopi) (of_int buf_size))))
    (amp (step n)).

(** The buffers after [count] frames starting at [frame]. *)
Fixpoint block_bufs (g : Globals) (env : Env) (right : option nat)
    (step : TestNote -> TestNote) (count : nat) (frame : Z) (n : TestNote)
    (bufs : list (list fnum)) : list (list fnum) :=
  match count with
  | O => bufs
  | S k =>
      block_bufs g env right step k (frame + 1) (step n)
        (emit_bufs right frame (frame_out g env step n) bufs)
  end.

(** The buffers [Render] leaves for an accepted channel count. *)
Definition render_bufs (g : Globals) (env : Env) (count : nat) (s : RS)
  : list (list fnum) :=
  match state (rs_note s) with
  | kNoteState_Free => mBuffers (rs_abl s)
  | st =>
      block_bufs g env (right_of (rs_abl s)) (frame_step env st) count 0
        (rs_note s) (mBuffers (rs_abl s))
  end.

(** The answers of the base classes at 44100 Hz and 440 Hz with the
    parameters as the constructor leaves them. *)
Definition constructor_env : Env :=
  render_env (Fin 44100) (Fin 440) SinSynth_parameters.

(** The rational under [twopi]. *)
Definition twopi_q : Q := 2 * (314159265358979 # 100000000000000).

(** The index a frame reads at for a phase. *)
Definition read_index (ph : fnum) : Z :=
  to_int (fmul (fdiv ph twopi) (of_int buf_size)).

(** An empty parameter info for the examples. *)
Definition blank_info : AudioUnitParameterInfo := mkInfo None 0 0 0 0 0.

(** A stand-in for [FillInParameterName] in the examples: it sets the name. *)
Definition name_only (info : AudioUnitParameterInfo) (name : CFStringRef)
    (release : bool) : AudioUnitParameterInfo :=
  mkInfo (Some name) (flags info) (unit info) (minValue info)
         (maxValue info) (defaultValue info).

(** * Properties *)

(** ** Comparisons of finite values *)

Lemma Qltb_true (a b : Q) : Qltb a b = true <-> (a < b)%Q.
Proof.
  unfold Qltb. rewrite (Qlt_alt a b).
  destruct (a ?= b)%Q; split; congruence.
Qed.

Lemma Qltb_false (a b : Q) : Qltb a b = false <-> (b <= a)%Q.
Proof.
  split; intro H.
  - apply Qnot_lt_le. intro L. apply Qltb_true in L. congruence.
  - destruct (Qltb a b) eqn:E; [| reflexivity].
    apply Qltb_true in E. exfalso. exact (Qlt_not_le _ _ E H).
Qed.

Lemma Qltb_cases (a b : Q) :
  (Qltb a b = true /\ (a < b)%Q) \/ (Qltb a b = false /\ (b <= a)%Q).
Proof.
  destruct (Qltb a b) eqn:E.
  - left. split; [reflexivity | now apply Qltb_true].
  - right. split; [reflexivity | now apply Qltb_false].
Qed.

Lemma Qeq_bool_false_pos (p : Q) : (0 < p)%Q -> Qeq_bool p 0 = false.
Proof.
  intro H. destruct (Qeq_bool p 0) eqn:E; [| reflexivity].
  apply Qeq_bool_eq in E. rewrite E in H. discriminate H.
Qed.

Lemma fdiv_fin_pos (a p : Q) : (0 < p)%Q -> fdiv (Fin a) (Fin p) = Fin (a / p).
Proof. intro H. simpl. now rewrite Qeq_bool_false_pos. Qed.

(** ** The sensor globals *)

Section PushFacts.

Variable cb : circular_buffer.
Variable m : Q.

Lemma push_run (r : Z) :
  push r (mkGlobals cb (Fin m)) =
  (Ok tt,
   mkGlobals (cb_push_back buf_size r cb)
             (Fin ((9 # 10) * m + (1 - (9 # 10)) * inject_Z r + 1))).
Proof. reflexivity. Qed.

Lemma push_average_lower (r : Z) :
  0 <= r -> (0 <= m)%Q ->
  (1 <= (9 # 10) * m + (1 - (9 # 10)) * inject_Z r + 1)%Q.
Proof.
  intros Hr Hm.
  assert (H : (0 <= inject_Z r)%Q) by (unfold Qle; simpl; lia).
  lra.
Qed.

End PushFacts.

Lemma push_average_at_least (r : Z) (g : Globals) :
  0 <= r -> average_at_least 0 g -> average_at_least 1 (snd (push r g)).
Proof.
  intros Hr Hg. destruct g as [cb ma]. unfold average_at_least in *.
  simpl in Hg. destruct ma as [a | | |]; try contradiction.
  rewrite push_run. simpl. now apply push_average_lower.
Qed.

Lemma average_at_least_weaken (g : Globals) :
  average_at_least 1 g -> average_at_least 0 g.
Proof.
  unfold average_at_least. destruct (moving_average g); auto. intro; lra.
Qed.

Lemma for_each_push_at_least (rs : list Z) (g : Globals) :
  Forall (fun r => 0 <= r) rs -> average_at_least 1 g ->
  average_at_least 1 (snd (for_each rs push g)).
Proof.
  intro H. revert g. induction H as [| r rs Hr _ IH]; intros g Hg.
  - exact Hg.
  - simpl. unfold bind.
    destruct (push r g) as [res g'] eqn:E.
    assert (Hg' : average_at_least 1 g').
    { change g' with (snd (res, g')). rewrite <- E.
      apply push_average_at_least; [exact Hr |].
      now apply average_at_least_weaken. }
    assert (res = Ok tt) as -> by (unfold push, modify in E; congruence).
    now apply IH.
Qed.

(** C2, as stated, fails: after the first push of the reading 500 the
    moving average is 0.1 * 500 + 1 = 51, not 0.1 * (500 + 1) = 50.1.  The
    [+ 1.] of line 96 is added to the whole sum, outside the product with
    [1 - beta]. *)
Lemma push_first_reading_counterexample :
  ~ feq (moving_average (snd (push 500 initial_globals)))
        (Fin ((9 # 10) * 0 + (1 # 10) * (inject_Z 500 + 1))).
Proof. vm_compute. intro H. discriminate H. Qed.

(** C2, amended: for every reading [r], [push] replaces the moving average
    [m] by 0.9 * m + 0.1 * r + 1, and never fails; after the first push of
    [r] from the initial value 0 the moving average is 0.1 * r + 1. *)
Theorem push_moving_average (r : Z) (cb : circular_buffer) (m : Q) :
  fst (push r (mkGlobals cb (Fin m))) = Ok tt
  /\ feq (moving_average (snd (push r (mkGlobals cb (Fin m)))))
         (Fin ((9 # 10) * m + (1 # 10) * inject_Z r + 1))
  /\ feq (moving_average (snd (push r initial_globals)))
         (Fin ((1 # 10) * inject_Z r + 1)).
Proof.
  unfold initial_globals. rewrite !push_run. simpl.
  repeat split; ring.
Qed.

(** C10: a push of a nonnegative reading onto a moving average that is
    nonnegative (the initial 0, or the result of earlier pushes) leaves a
    moving average of at least 1, and so does every further push of
    nonnegative readings; the average is then strictly positive, so the
    test [0 < moving_average] can fail only before the first reading. *)
Theorem moving_average_at_least_1 (r : Z) (rs : list Z) (g : Globals) :
  0 <= r -> Forall (fun x => 0 <= x) rs -> average_at_least 0 g ->
  average_at_least 1 (snd (push r g))
  /\ average_at_least 1 (snd (for_each (r :: rs) push g))
  /\ flt (Fin 0) (moving_average (snd (for_each (r :: rs) push g))) = true.
Proof.
  intros Hr Hrs Hg.
  assert (H1 : average_at_least 1 (snd (push r g)))
    by now apply push_average_at_least.
  assert (H2 : average_at_least 1 (snd (for_each (r :: rs) push g))).
  { simpl. unfold bind. destruct (push r g) as [res g'] eqn:E.
    assert (res = Ok tt) as -> by (unfold push, modify in E; congruence).
    now apply for_each_push_at_least. }
  repeat split; try assumption.
  unfold average_at_least in H2.
  destruct (moving_average (snd (for_each (r :: rs) push g))) as [a | | |];
    try contradiction.
  simpl. apply Qltb_true. lra.
Qed.

(** C10 on the readings 0, 3, 120 pushed from the initial globals. *)
Lemma moving_average_at_least_1_witness :
  average_at_least 1 (snd (push 0 initial_globals))
  /\ average_at_least 1 (snd (for_each [0; 3; 120] push initial_globals))
  /\ flt (Fin 0)
         (moving_average (snd (for_each [0; 3; 120] push initial_globals)))
     = true.
Proof.
  apply (moving_average_at_least_1 0 [3; 120] initial_globals).
  - lia.
  - repeat constructor; lia.
  - simpl. discriminate.
Defined.

(** ** The subscriber loop *)

Lemma for_each_push_ok (l : list Z) (g : Globals) :
  fst (for_each l push g) = Ok tt.
Proof.
  revert g. induction l as [| d l IH]; intro g; [reflexivity |].
  simpl. unfold bind. unfold push at 1, modify. apply IH.
Qed.

Lemma for_each_push_app (l1 l2 : list Z) (g : Globals) :
  snd (for_each (l1 ++ l2) push g) =
  snd (for_each l2 push (snd (for_each l1 push g))).
Proof.
  revert g. induction l1 as [| d l1 IH]; intro g; [reflexivity |].
  simpl. unfold bind. unfold push at 1 3, modify. apply IH.
Qed.

(** A scan that is read is pushed whole, whatever [exit_flag] holds: the
    [thread_aborted] thrown by [check_exit] is caught inside the loop body. *)
Lemma subscriber_body_scan (samples : list Z) (flag : bool) (g : Globals) :
  subscriber_body (scan_ok samples, flag) g =
  (Ok tt, snd (for_each samples push g)).
Proof.
  unfold subscriber_body, try_catch, bind. simpl. unfold ret at 1.
  pose proof (for_each_push_ok samples g) as H.
  destruct (for_each samples push g) as [res g']. simpl in H. subst res.
  destruct flag; reflexivity.
Qed.

Lemma subscriber_body_fails (flag : bool) (g : Globals) :
  subscriber_body (scan_fails, flag) g = (Raise device_error, g).
Proof. reflexivity. Qed.

Lemma subscriber_app_scans (scans : list (list Z * bool))
    (rest : list (scan_result * bool)) (g : Globals) :
  subscriber (delivered scans ++ rest) g =
  subscriber rest (snd (for_each (concat (map fst scans)) push g)).
Proof.
  revert g. induction scans as [| [l b] scans IH]; intro g; [reflexivity |].
  simpl. unfold bind at 1. rewrite subscriber_body_scan.
  rewrite IH, for_each_push_app. reflexivity.
Qed.

(** The shutdown flag does not end the loop: with [exit_flag] set at every
    [check_exit], every scan the device delivers is still read and pushed,
    and the thread is still inside [while (true)] afterwards. *)
Lemma subscriber_runs_on_after_exit_flag (scans : list (list Z)) (g : Globals) :
  subscriber (delivered (map (fun l => (l, true)) scans)) g =
  (Ok tt, snd (for_each (concat scans) push g)).
Proof.
  rewrite <- (app_nil_r (delivered _)), subscriber_app_scans.
  rewrite map_map. simpl. rewrite map_id. reflexivity.
Qed.

(** C3, as stated, fails: with [exit_flag] never set, a scan that fails is
    not caught and ignored; the exception leaves the loop and the thread
    function, and the scan that would follow is never read. *)
Lemma subscriber_read_error_counterexample :
  subscriber [(scan_fails, false); (scan_ok [9], false)] initial_globals
  = (Raise device_error, initial_globals)
  /\ subscriber [(scan_fails, false); (scan_ok [9], false)] initial_globals
     <> (Ok tt, snd (push 9 initial_globals)).
Proof. split; [reflexivity | discriminate]. Qed.

(** C3, amended: an error raised while reading a batch is not caught (the
    handler of the loop catches [thread_aborted] only).  With the shutdown
    flag unset so far, the loop has pushed the readings of every batch read
    before, ends at the failed read with the error leaving the thread
    function, and processes none of the batches that follow. *)
Theorem subscriber_read_error_ends_loop (before : list (list Z)) (flag : bool)
    (after : list (scan_result * bool)) (g : Globals) :
  subscriber (delivered (map (fun l => (l, false)) before)
              ++ (scan_fails, flag) :: after) g
  = (Raise device_error, snd (for_each (concat before) push g)).
Proof.
  rewrite subscriber_app_scans, map_map. simpl. rewrite map_id.
  unfold bind. rewrite subscriber_body_fails. reflexivity.
Qed.

(** Once the thread has pushed a reading, the moving average is positive:
    scans read without error, nonnegative readings, at least one of them. *)
Lemma subscriber_average_positive (scans : list (list Z * bool))
    (r : Z) (rs : list Z) :
  concat (map fst scans) = r :: rs -> Forall (fun x => 0 <= x) (r :: rs) ->
  flt (Fin 0)
      (moving_average (snd (subscriber (delivered scans) initial_globals)))
  = true.
Proof.
  intros Hc Hall.
  rewrite <- (app_nil_r (delivered scans)), subscriber_app_scans, Hc.
  cbn [subscriber ret snd].
  assert (H : average_at_least 1
                (snd (for_each (r :: rs) push initial_globals))).
  { inversion Hall as [| x l Hr Hrs]; subst.
    cbn [for_each]. unfold bind, push at 1, modify.
    apply for_each_push_at_least; [exact Hrs |].
    apply (push_average_at_least r initial_globals Hr). simpl. discriminate. }
  unfold average_at_least in H.
  destruct (moving_average (snd (for_each (r :: rs) push initial_globals)))
    as [a | | |]; try contradiction.
  simpl. apply Qltb_true. lra.
Qed.

(** ** Reading the ring buffer *)

Lemma sample_at_run (g : Globals) (i : Z) (s : RS) :
  sample_at g i s = (Ok (sample_value (c_buf g) i), s).
Proof.
  unfold sample_at, sample_value, in_filled_range, try_catch, bind, cb_at.
  destruct ((0 <=? i) && (i <? Z.of_nat (length (c_buf g)))) eqn:R.
  - unfold ret at 1.
    destruct (Z.ltb_spec (nth (Z.to_nat i) (c_buf g) 0) 1000) as [L | L];
      destruct (Z.leb_spec 1000 (nth (Z.to_nat i) (c_buf g) 0)); try lia;
      reflexivity.
  - reflexivity.
Qed.

Lemma read_val_run (g : Globals) (ph : fnum) (s : RS) :
  read_val g ph s =
  (Ok (sample_value (c_buf g)
         (to_int (fmul (fdiv ph twopi) (of_int buf_size)))), s).
Proof. unfold read_val. apply sample_at_run. Qed.

(** C4: for every index [i] and in every state of the renderer, the read
    of the ring buffer returns a value, raises nothing and changes nothing:
    inside the filled range the value is the stored reading, with every
    reading of 1000 or more replaced by exactly 1000; outside the filled
    range the value is 0.  The read of a frame, at the index computed from
    the phase, is such a read. *)
Theorem sample_at_total_clamped (g : Globals) (i : Z) (s : RS) :
  sample_at g i s =
    (Ok (if (0 <=? i) && (i <? Z.of_nat (length (c_buf g)))
         then if 1000 <=? nth (Z.to_nat i) (c_buf g) 0
              then Fin 1000
              else Fin (inject_Z (nth (Z.to_nat i) (c_buf g) 0))
         else Fin 0),
     s)
  /\ forall ph : fnum, exists j : Z, read_val g ph s = sample_at g j s.
Proof.
  split.
  - rewrite sample_at_run. reflexivity.
  - intro ph. eexists. reflexivity.
Qed.

(** ** The frames of a block *)

Section FrameFacts.

Variable g : Globals.
Variable env : Env.
Variable right : option nat.

Lemma emit_run (frame : Z) (out : fnum) (s : RS) :
  exists bufs,
    emit right frame out s =
    (Ok tt, mkRS (rs_note s) (mkABL (mNumberBuffers (rs_abl s)) bufs)
                 (rs_ended s)).
Proof.
  unfold emit, bind, store, modify, ret.
  destruct right; simpl; eexists; reflexivity.
Qed.

(** One frame run symbolically: the binds are unfolded, the read of the
    ring buffer and the stores into the buffers are replaced by what they
    return. *)
Ltac run_frame :=
  unfold bind, get, set_amp, set_phase, modify;
  rewrite read_val_run;
  match goal with
  | |- context [emit ?r ?f ?o ?t] =>
      let bufs := fresh "bufs" in
      destruct (emit_run f o t) as [bufs ->]; exists bufs; reflexivity
  end.

Lemma attack_frame_run (frame : Z) (s : RS) :
  exists bufs,
    attack_frame g env right frame tt s =
    (Ok tt,
     mkRS (mkNote (state (rs_note s)) (wrap_phase env (phase (rs_note s)))
                  (attack_amp env (rs_note s)) (maxamp (rs_note s))
                  (fast_dn_slope (rs_note s)))
          (mkABL (mNumberBuffers (rs_abl s)) bufs) (rs_ended s)).
Proof.
  unfold attack_frame. run_frame.
Qed.

Lemma release_frame_run (frame endFrame : Z) (s : RS) :
  exists bufs,
    release_frame g env right frame endFrame s =
    (Ok (next_endFrame (amp (rs_note s)) frame endFrame),
     mkRS (mkNote (state (rs_note s)) (fadd (phase (rs_note s)) (freq env))
                  (release_amp env (rs_note s)) (maxamp (rs_note s))
                  (fast_dn_slope (rs_note s)))
          (mkABL (mNumberBuffers (rs_abl s)) bufs) (rs_ended s)).
Proof.
  unfold release_frame. run_frame.
Qed.

Lemma fast_release_frame_run (frame endFrame : Z) (s : RS) :
  exists bufs,
    fast_release_frame g env right frame endFrame s =
    (Ok (next_endFrame (amp (rs_note s)) frame endFrame),
     mkRS (mkNote (state (rs_note s)) (fadd (phase (rs_note s)) (freq env))
                  (fast_release_amp (rs_note s)) (maxamp (rs_note s))
                  (fast_dn_slope (rs_note s)))
          (mkABL (mNumberBuffers (rs_abl s)) bufs) (rs_ended s)).
Proof.
  unfold fast_release_frame. run_frame.
Qed.

End FrameFacts.

Section LoopFacts.

Variable g : Globals.
Variable env : Env.
Variable right : option nat.

Lemma attack_loop_run (count : nat) (frame : Z) (s : RS) :
  exists bufs,
    for_frames count frame (attack_frame g env right) tt s =
    (Ok tt,
     mkRS (Nat.iter count (attack_note env) (rs_note s))
          (mkABL (mNumberBuffers (rs_abl s)) bufs) (rs_ended s)).
Proof.
  revert frame s. induction count as [| k IH]; intros frame s.
  - exists (mBuffers (rs_abl s)). destruct s as [n [nb bs] e]. reflexivity.
  - cbn [for_frames]. unfold bind.
    destruct (attack_frame_run g env right frame s) as [b1 ->].
    destruct (IH (frame + 1) (mkRS (attack_note env (rs_note s))
                (mkABL (mNumberBuffers (rs_abl s)) b1) (rs_ended s)))
      as [b2 E].
    exists b2. unfold attack_note at 1 in E.
    rewrite E. cbn [rs_note rs_abl rs_ended mNumberBuffers].
    rewrite Nat.iter_succ_r. reflexivity.
Qed.

Lemma release_loop_run (count : nat) (frame endFrame : Z) (s : RS) :
  exists bufs,
    for_frames count frame (release_frame g env right) endFrame s =
    (Ok (end_frames (release_note env) count frame endFrame (rs_note s)),
     mkRS (Nat.iter count (release_note env) (rs_note s))
          (mkABL (mNumberBuffers (rs_abl s)) bufs) (rs_ended s)).
Proof.
  revert frame endFrame s. induction count as [| k IH]; intros frame e s.
  - exists (mBuffers (rs_abl s)). destruct s as [n [nb bs] e']. reflexivity.
  - cbn [for_frames end_frames]. unfold bind.
    destruct (release_frame_run g env right frame e s) as [b1 ->].
    destruct (IH (frame + 1) (next_endFrame (amp (rs_note s)) frame e)
                (mkRS (release_note env (rs_note s))
                      (mkABL (mNumberBuffers (rs_abl s)) b1) (rs_ended s)))
      as [b2 E].
    exists b2. unfold release_note at 1 in E.
    rewrite E. cbn [rs_note rs_abl rs_ended mNumberBuffers].
    rewrite Nat.iter_succ_r. reflexivity.
Qed.

Lemma fast_release_loop_run (count : nat) (frame endFrame : Z) (s : RS) :
  exists bufs,
    for_frames count frame (fast_release_frame g env right) endFrame s =
    (Ok (end_frames (fast_release_note env) count frame endFrame
           (rs_note s)),
     mkRS (Nat.iter count (fast_release_note env) (rs_note s))
          (mkABL (mNumberBuffers (rs_abl s)) bufs) (rs_ended s)).
Proof.
  revert frame endFrame s. induction count as [| k IH]; intros frame e s.
  - exists (mBuffers (rs_abl s)). destruct s as [n [nb bs] e']. reflexivity.
  - cbn [for_frames end_frames]. unfold bind.
    destruct (fast_release_frame_run g env right frame e s) as [b1 ->].
    destruct (IH (frame + 1) (next_endFrame (amp (rs_note s)) frame e)
                (mkRS (fast_release_note env (rs_note s))
                      (mkABL (mNumberBuffers (rs_abl s)) b1) (rs_ended s)))
      as [b2 E].
    exists b2. unfold fast_release_note at 1 in E.
    rewrite E. cbn [rs_note rs_abl rs_ended mNumberBuffers].
    rewrite Nat.iter_succ_r. reflexivity.
Qed.

End LoopFacts.

Lemma iter_id {A} (k : nat) (x : A) : Nat.iter k (fun y => y) x = x.
Proof. induction k; simpl; congruence. Qed.

Lemma Render_rejects (g : Globals) (env : Env) (inNumFrames : Z) (s : RS) :
  (int_of_UInt32 (mNumberBuffers (rs_abl s)) >? 2) = true ->
  Render g env inNumFrames s = (Ok (-1), s).
Proof.
  intro H. unfold Render, bind, get. rewrite H. reflexivity.
Qed.

Lemma Render_run (g : Globals) (env : Env) (inNumFrames : Z) (s : RS) :
  (int_of_UInt32 (mNumberBuffers (rs_abl s)) >? 2) = false ->
  exists bufs,
    Render g env inNumFrames s =
    (Ok noErr,
     mkRS (Nat.iter (Z.to_nat inNumFrames)
             (frame_step env (state (rs_note s))) (rs_note s))
          (mkABL (mNumberBuffers (rs_abl s)) bufs)
          (rs_ended s
           ++ reported (state (rs_note s)) env (Z.to_nat inNumFrames)
                (rs_note s))).
Proof.
  intro H. unfold Render, bind at 1, get. rewrite H.
  set (right := if int_of_UInt32 (mNumberBuffers (rs_abl s)) =? 2
                then Some 1%nat else None).
  set (count := Z.to_nat inNumFrames).
  unfold reported, frame_step.
  destruct (state (rs_note s)) eqn:St.
  1-4: unfold bind;
       destruct (attack_loop_run g env right count 0 s) as [b ->];
       exists b; unfold ret; rewrite app_nil_r; reflexivity.
  - unfold bind.
    destruct (release_loop_run g env right count 0 no_endFrame s) as [b ->].
    exists b. unfold report_end, NoteEnded, modify, ret.
    destruct (_ =? no_endFrame); cbn [rs_note rs_abl rs_ended];
      rewrite ?app_nil_r; reflexivity.
  - unfold bind.
    destruct (fast_release_loop_run g env right count 0 no_endFrame s)
      as [b ->].
    exists b. unfold report_end, NoteEnded, modify, ret.
    destruct (_ =? no_endFrame); cbn [rs_note rs_abl rs_ended];
      rewrite ?app_nil_r; reflexivity.
  - exists (mBuffers (rs_abl s)). unfold ret. rewrite iter_id, app_nil_r.
    destruct s as [n [nb bs] e]. reflexivity.
Qed.

(** ** The channel count *)

(** C8, as stated, fails: a buffer list that announces 0 channels is not
    rejected.  [Render] returns [noErr] and has added a sample to the first
    buffer. *)
Lemma Render_zero_channels_counterexample :
  fst (Render fed_globals test_env 1
         (mkRS (test_note kNoteState_Attacked 0 0) (mkABL 0 [[Fin 0]]) []))
  = Ok noErr
  /\ mBuffers (rs_abl (snd (Render fed_globals test_env 1
         (mkRS (test_note kNoteState_Attacked 0 0) (mkABL 0 [[Fin 0]]) []))))
     <> [[Fin 0]].
Proof. vm_compute. split; [reflexivity | discriminate]. Qed.

(** C8, amended: if the channel count, read as an [int], is greater than 2,
    [Render] returns the status -1 and writes nothing: the note, the buffers
    and the record of ended notes are as before.  For every other count, 0
    included, it goes on to the frames of the note's state and returns
    [noErr]. *)
Theorem Render_channel_count (g : Globals) (env : Env) (inNumFrames : Z)
    (s : RS) :
  if int_of_UInt32 (mNumberBuffers (rs_abl s)) >? 2
  then Render g env inNumFrames s = (Ok (-1), s)
  else fst (Render g env inNumFrames s) = Ok noErr
       /\ rs_note (snd (Render g env inNumFrames s)) =
          Nat.iter (Z.to_nat inNumFrames)
            (frame_step env (state (rs_note s))) (rs_note s).
Proof.
  destruct (int_of_UInt32 (mNumberBuffers (rs_abl s)) >? 2) eqn:H.
  - now apply Render_rejects.
  - destruct (Render_run g env inNumFrames s H) as [b ->]. split; reflexivity.
Qed.

(** ** The phase *)

Lemma phase_iter_attack (env : Env) (k : nat) (n : TestNote) :
  phase (Nat.iter k (attack_note env) n) =
  Nat.iter k (wrap_phase env) (phase n).
Proof. induction k as [| k IH]; simpl; [reflexivity | now rewrite IH]. Qed.

Lemma phase_iter_release (env : Env) (k : nat) (n : TestNote) :
  phase (Nat.iter k (release_note env) n) =
  Nat.iter k (fun p => fadd p (freq env)) (phase n).
Proof. induction k as [| k IH]; simpl; [reflexivity | now rewrite IH]. Qed.

Lemma phase_iter_fast_release (env : Env) (k : nat) (n : TestNote) :
  phase (Nat.iter k (fast_release_note env) n) =
  Nat.iter k (fun p => fadd p (freq env)) (phase n).
Proof. induction k as [| k IH]; simpl; [reflexivity | now rewrite IH]. Qed.

Lemma iter_fadd_fin (f p : Q) (k : nat) :
  feq (Nat.iter k (fun x => fadd x (Fin f)) (Fin p))
      (Fin (p + inject_Z (Z.of_nat k) * f)).
Proof.
  induction k as [| k IH].
  - simpl. ring.
  - rewrite Nat.iter_succ.
    destruct (Nat.iter k (fun x => fadd x (Fin f)) (Fin p)) as [q | | |];
      cbn [feq] in IH; try contradiction.
    cbn [fadd feq]. rewrite IH, Nat2Z.inj_succ. unfold Z.succ.
    rewrite inject_Z_plus. ring.
Qed.

(** C9: with an accepted channel count, a block of [inNumFrames] frames
    leaves the phase of an attacked or sustained note advanced frame by
    frame by Frequency * (twopi / SampleRate), [twopi] being subtracted
    each time the sum exceeds [twopi]; it leaves the phase of a released or
    fast-released note advanced by the same increment each frame with no
    subtraction at all: from a finite phase [p] and a finite increment [f]
    the released note ends the block at p + inNumFrames * f. *)
Theorem phase_advance_asymmetric (g : Globals) (env : Env) (inNumFrames : Z)
    (s : RS) (p f : Q) :
  (int_of_UInt32 (mNumberBuffers (rs_abl s)) >? 2) = false ->
  phase (rs_note s) = Fin p ->
  fmul (Frequency env) (fdiv twopi (SampleRate env)) = Fin f ->
  let after := phase (rs_note (snd (Render g env inNumFrames s))) in
  (attack_like (state (rs_note s)) = true ->
   after =
   Nat.iter (Z.to_nat inNumFrames)
     (fun q => if fgt (fadd q (Fin f)) twopi
               then fsub (fadd q (Fin f)) twopi
               else fadd q (Fin f))
     (Fin p))
  /\ (release_like (state (rs_note s)) = true ->
      after = Nat.iter (Z.to_nat inNumFrames) (fun q => fadd q (Fin f)) (Fin p)
      /\ feq after (Fin (p + inject_Z (Z.of_nat (Z.to_nat inNumFrames)) * f))).
Proof.
  intros H Hp Hf after. subst after.
  destruct (Render_run g env inNumFrames s H) as [b ->].
  cbn [snd rs_note]. split; intro St.
  - assert (E : frame_step env (state (rs_note s)) = attack_note env)
      by (destruct (state (rs_note s)); try discriminate; reflexivity).
    rewrite E, phase_iter_attack, Hp.
    unfold wrap_phase, freq. rewrite Hf. reflexivity.
  - assert (E : phase (Nat.iter (Z.to_nat inNumFrames)
                   (frame_step env (state (rs_note s))) (rs_note s)) =
                Nat.iter (Z.to_nat inNumFrames)
                  (fun q => fadd q (Fin f)) (Fin p)).
    { destruct (state (rs_note s)); try discriminate; cbn [frame_step];
        [rewrite phase_iter_release | rewrite phase_iter_fast_release];
        unfold freq; rewrite Hf, Hp; reflexivity. }
    rewrite E. split; [reflexivity | apply iter_fadd_fin].
Qed.

(** C9 on a released note: from phase 6, four frames with an increment of
    pi end at 6 + 4 pi. *)
Lemma phase_advance_asymmetric_witness :
  feq (phase (rs_note (snd (Render initial_globals half_turn_env 4
                  (mkRS (test_note kNoteState_Released 6 1) (mono 4) [])))))
      (Fin (6 + inject_Z 4 * (2 * (314159265358979 # 100000000000000) / 2))).
Proof.
  refine (proj2 (proj2 (phase_advance_asymmetric initial_globals
            half_turn_env 4
            (mkRS (test_note kNoteState_Released 6 1) (mono 4) []) 6
            (1 * (2 * (314159265358979 # 100000000000000) / 2))
            _ _ _) _)); reflexivity.
Defined.

(** The asymmetry on one input: from phase 6 with an increment of pi, four
    attacked frames end below [twopi], four released frames far above. *)
Example phase_wrap_example :
  flt (phase (rs_note (snd (Render initial_globals half_turn_env 4
                 (mkRS (test_note kNoteState_Attacked 6 1) (mono 4) [])))))
      twopi = true
  /\ flt (Fin 18)
         (phase (rs_note (snd (Render initial_globals half_turn_env 4
                    (mkRS (test_note kNoteState_Released 6 1) (mono 4) [])))))
     = true.
Proof. vm_compute. split; reflexivity. Qed.

(** ** The amplitude *)

Lemma Qdiv_nonneg (a c : Q) : (0 <= a)%Q -> (0 < c)%Q -> (0 <= a / c)%Q.
Proof.
  intros Ha Hc. apply Qle_shift_div_l; [exact Hc |]. now rewrite Qmult_0_l.
Qed.

Lemma Qdiv_pos (a c : Q) : (0 < a)%Q -> (0 < c)%Q -> (0 < a / c)%Q.
Proof.
  intros Ha Hc. apply Qlt_shift_div_l; [exact Hc |]. now rewrite Qmult_0_l.
Qed.

Lemma Qsign_pos (a : Q) : (0 < a)%Q -> Qsign a = Gt.
Proof. intro H. unfold Qsign. now apply Qgt_alt. Qed.

Section AmplitudeRange.

Variable env : Env.
Variables m sr att rt fd : Q.
Hypothesis Hsr : SampleRate env = Fin sr.
Hypothesis Hatt : globalAmpAttack env = Fin att.
Hypothesis Hrt : globalAmpRelease env = Fin rt.
Hypothesis sr_pos : (0 < sr)%Q.
Hypothesis att_nonneg : (0 <= att)%Q.
Hypothesis rt_pos : (0 < rt)%Q.
Hypothesis fd_nonpos : (fd <= 0)%Q.
Hypothesis m_nonneg : (0 <= m)%Q.

Lemma attack_amp_range (n : TestNote) :
  maxamp n = Fin m -> amp_in 0 m n ->
  exists a', attack_amp env n = Fin a' /\ (0 <= a' <= m)%Q.
Proof.
  intros Hm [a [Ha Hr]]. unfold attack_amp.
  rewrite Ha, Hm, Hsr, Hatt. cbn [flt fgt fmul].
  destruct (Qltb_cases a m) as [[E L] | [E L]]; rewrite E.
  - assert (Hm0 : (0 < m)%Q) by lra.
    cbn [fdiv]. destruct (Qeq_bool (sr * att) 0) eqn:Z0.
    + rewrite (Qsign_pos m Hm0). cbn. exists m. split; [reflexivity | lra].
    + assert (P : (0 < sr * att)%Q).
      { destruct (Qlt_le_dec 0 att) as [Q1 | Q1].
        - now apply Qmult_lt_0_compat.
        - assert (att == 0)%Q as Z1 by lra.
          assert (sr * att == 0)%Q as Z2 by (rewrite Z1; ring).
          apply Qeq_eq_bool in Z2. congruence. }
      pose proof (Qdiv_nonneg m (sr * att) m_nonneg P) as D.
      cbn [fadd flt].
      destruct (Qltb_cases m (a + m / (sr * att))) as [[E2 L2] | [E2 L2]];
        rewrite E2; eexists; (split; [reflexivity | lra]).
  - cbn [flt].
    destruct (Qltb_cases m a) as [[E2 L2] | [E2 L2]]; rewrite E2;
      eexists; (split; [reflexivity | lra]).
Qed.

Lemma release_amp_fin (n : TestNote) (a : Q) :
  maxamp n = Fin m -> amp n = Fin a ->
  release_amp env n =
  if Qltb 0 a then Fin (a + - (m / (sr * rt))) else Fin a.
Proof.
  intros Hm Ha. unfold release_amp.
  rewrite Ha, Hm, Hsr, Hrt. cbn [fgt flt fmul].
  rewrite fdiv_fin_pos by now apply Qmult_lt_0_compat.
  destruct (Qltb 0 a); reflexivity.
Qed.

Lemma release_amp_range (n : TestNote) :
  maxamp n = Fin m -> amp_in (- (m / (sr * rt))) m n ->
  exists a',
    release_amp env n = Fin a' /\ (- (m / (sr * rt)) <= a' <= m)%Q.
Proof.
  intros Hm [a [Ha Hr]]. rewrite (release_amp_fin n a Hm Ha).
  assert (D : (0 <= m / (sr * rt))%Q)
    by (apply Qdiv_nonneg; [assumption | now apply Qmult_lt_0_compat]).
  destruct (Qltb_cases 0 a) as [[E L] | [E L]]; rewrite E;
    eexists; (split; [reflexivity | lra]).
Qed.

Lemma fast_release_amp_range (n : TestNote) :
  maxamp n = Fin m -> fast_dn_slope n = Fin fd -> amp_in fd m n ->
  exists a', fast_release_amp n = Fin a' /\ (fd <= a' <= m)%Q.
Proof.
  intros Hm Hfd [a [Ha Hr]]. unfold fast_release_amp.
  rewrite Ha, Hfd. cbn [fgt flt fadd].
  destruct (Qltb_cases 0 a) as [[E L] | [E L]]; rewrite E;
    eexists; (split; [reflexivity | lra]).
Qed.

Lemma frame_step_range (st : SynthNoteState) (n : TestNote) :
  maxamp n = Fin m -> fast_dn_slope n = Fin fd ->
  amp_in (amp_floor st m sr rt fd) m n ->
  maxamp (frame_step env st n) = Fin m
  /\ fast_dn_slope (frame_step env st n) = Fin fd
  /\ amp_in (amp_floor st m sr rt fd) m (frame_step env st n).
Proof.
  intros Hm Hfd Hin.
  destruct st; cbn [frame_step amp_floor] in *;
    (split; [exact Hm | split; [exact Hfd |]]); try exact Hin;
    unfold amp_in; cbn [amp attack_note release_note fast_release_note].
  1-4: now apply attack_amp_range.
  - now apply release_amp_range.
  - now apply fast_release_amp_range.
Qed.

Lemma iter_frame_step_range (st : SynthNoteState) (k : nat) (n : TestNote) :
  maxamp n = Fin m -> fast_dn_slope n = Fin fd ->
  amp_in (amp_floor st m sr rt fd) m n ->
  maxamp (Nat.iter k (frame_step env st) n) = Fin m
  /\ fast_dn_slope (Nat.iter k (frame_step env st) n) = Fin fd
  /\ amp_in (amp_floor st m sr rt fd) m (Nat.iter k (frame_step env st) n).
Proof.
  intros Hm Hfd Hin. induction k as [| k [I1 [I2 I3]]].
  - repeat split; assumption.
  - rewrite Nat.iter_succ. now apply frame_step_range.
Qed.

End AmplitudeRange.

(** C5, as stated, fails: a released note with amplitude 0.01 (maximum 1,
    44100 Hz, release time 0.001 s) has a negative amplitude after one
    frame: the decrement 1/44.1 is subtracted whole. *)
Lemma released_amplitude_counterexample :
  flt (amp (rs_note (snd (Render fed_globals test_env 1
              (mkRS (test_note kNoteState_Released 0 (1 # 100)) (mono 1)
                    [])))))
      (Fin 0) = true.
Proof. vm_compute. reflexivity. Qed.

(** C5, amended: for a positive sample rate and release time, a nonnegative
    attack time and a fast-release slope that is not positive, every block
    in every state keeps the amplitude at or below the maximum amplitude
    and at or above the floor of the state: 0 for the attacked and
    sustained states (increment, then clamp to the maximum) and for a free
    note, but minus one decrement for the released and fast-released
    states, whose branches subtract the decrement from any positive
    amplitude and do not clamp at 0. *)
Theorem Render_amplitude_range (g : Globals) (env : Env) (inNumFrames : Z)
    (s : RS) (a m sr att rt fd : Q) :
  SampleRate env = Fin sr -> globalAmpAttack env = Fin att ->
  globalAmpRelease env = Fin rt ->
  (0 < sr)%Q -> (0 <= att)%Q -> (0 < rt)%Q -> (fd <= 0)%Q -> (0 <= m)%Q ->
  amp (rs_note s) = Fin a -> maxamp (rs_note s) = Fin m ->
  fast_dn_slope (rs_note s) = Fin fd ->
  (amp_floor (state (rs_note s)) m sr rt fd <= a <= m)%Q ->
  exists a',
    amp (rs_note (snd (Render g env inNumFrames s))) = Fin a'
    /\ (amp_floor (state (rs_note s)) m sr rt fd <= a' <= m)%Q.
Proof.
  intros Hsr Hatt Hrt Psr Patt Prt Pfd Pm Ha Hm Hfd Hr.
  destruct (int_of_UInt32 (mNumberBuffers (rs_abl s)) >? 2) eqn:H.
  - rewrite Render_rejects by exact H. exists a. now split.
  - destruct (Render_run g env inNumFrames s H) as [b ->]. cbn [snd rs_note].
    apply (iter_frame_step_range env m sr att rt fd Hsr Hatt Hrt Psr Patt Prt
             Pfd Pm (state (rs_note s)) (Z.to_nat inNumFrames) (rs_note s)
             Hm Hfd).
    exists a. now split.
Qed.

(** C5, amended, on the note of the counterexample. *)
Lemma Render_amplitude_range_witness :
  exists a',
    amp (rs_note (snd (Render fed_globals test_env 1
           (mkRS (test_note kNoteState_Released 0 (1 # 100)) (mono 1) []))))
    = Fin a'
    /\ (- (1 / (44100 * (1 # 1000))) <= a' <= 1)%Q.
Proof.
  apply (Render_amplitude_range fed_globals test_env 1
           (mkRS (test_note kNoteState_Released 0 (1 # 100)) (mono 1) [])
           (1 # 100) 1 44100 (1 # 1000) (1 # 1000) (- (1 # 4)));
    try reflexivity; try (vm_compute; congruence).
  split; vm_compute; congruence.
Defined.

(** ** The end frame of a released note *)

Lemma end_frames_keeps (step : TestNote -> TestNote) (count : nat)
    (frame e : Z) (n : TestNote) :
  e <> no_endFrame -> end_frames step count frame e n = e.
Proof.
  revert frame e n. induction count as [| k IH]; intros frame e n He;
    [reflexivity |].
  cbn [end_frames]. unfold next_endFrame.
  destruct (fgt (amp n) (Fin 0)); [now apply IH |].
  destruct (Z.eqb_spec e no_endFrame); [contradiction | now apply IH].
Qed.

(** The rounding on known values: 0.1 in [double] is
    0x1.999999999999ap-4, 0.001 in [float] is 0x1.0624dep-10, a value of the
    format is kept, and past the largest [float] lies the infinity. *)
Example rounding_examples :
  to_double (Fin (1 # 10)) = Fin (7205759403792794 # 72057594037927936)
  /\ to_float (Fin (1 # 1000)) = Fin (8589935 # 8589934592)
  /\ feq (to_double (Fin (1 # 4))) (Fin (1 # 4))
  /\ feq (to_float (Fin 16777217)) (Fin 16777216)
  /\ to_float (Fin (2 ^ 128)) = PInf
  /\ feq twopi_double (Fin (7074237752028433 # 1125899906842624)).
Proof. vm_compute. repeat split; reflexivity. Qed.

Lemma end_frame_of_keeps (step : fnum -> fnum) (count : nat) (frame e : Z)
    (a : fnum) :
  e <> no_endFrame -> end_frame_of step count frame e a = e.
Proof.
  revert frame e a. induction count as [| k IH]; intros frame e a He;
    [reflexivity |].
  cbn [end_frame_of]. unfold next_endFrame.
  destruct (fgt a (Fin 0)); [now apply IH |].
  destruct (Z.eqb_spec e no_endFrame); [contradiction | now apply IH].
Qed.

(** The frame a loop records is the first one that finds the amplitude
    spent, whatever the update [op] of the amplitude is. *)
Section FirstSpentFrame.

Variable op : fnum -> fnum.

Lemma end_frame_of_first (k : nat) :
  forall (count : nat) (frame : Z) (a : fnum),
    (k < count)%nat -> frame + Z.of_nat k < no_endFrame ->
    (forall j, (j < k)%nat -> fgt (Nat.iter j op a) (Fin 0) = true) ->
    fgt (Nat.iter k op a) (Fin 0) = false ->
    end_frame_of (while_positive op) count frame no_endFrame a =
    frame + Z.of_nat k.
Proof.
  induction k as [| k IH]; intros count frame a Hk Hlt Hpos Hend;
    (destruct count as [| c]; [lia |]); cbn [end_frame_of].
  - cbn [Nat.iter nat_rect] in Hend. unfold next_endFrame.
    rewrite Hend, Z.eqb_refl.
    rewrite end_frame_of_keeps by lia. lia.
  - pose proof (Hpos 0%nat ltac:(lia)) as P0. cbn [Nat.iter nat_rect] in P0.
    unfold next_endFrame, while_positive at 2. rewrite P0.
    rewrite (IH c (frame + 1) (op a)).
    + lia.
    + lia.
    + lia.
    + intros j Hj. rewrite <- Nat.iter_succ_r. apply Hpos. lia.
    + rewrite <- Nat.iter_succ_r. exact Hend.
Qed.

Lemma end_frame_of_none (count : nat) :
  forall (frame : Z) (a : fnum),
    (forall j, (j < count)%nat -> fgt (Nat.iter j op a) (Fin 0) = true) ->
    end_frame_of (while_positive op) count frame no_endFrame a = no_endFrame.
Proof.
  induction count as [| c IH]; intros frame a Hpos; [reflexivity |].
  cbn [end_frame_of].
  pose proof (Hpos 0%nat ltac:(lia)) as P0. cbn [Nat.iter nat_rect] in P0.
  unfold next_endFrame, while_positive at 2. rewrite P0.
  apply IH. intros j Hj. rewrite <- Nat.iter_succ_r. apply Hpos. lia.
Qed.

End FirstSpentFrame.

Section RoundedFrames.

Variable g : Globals.
Variable env : Env.
Variable right : option nat.

Lemma read_val_float_run (ph : fnum) (s : RS) :
  exists v, read_val_float g ph s = (Ok v, s).
Proof.
  unfold read_val_float, bind. rewrite sample_at_run.
  eexists. reflexivity.
Qed.

Lemma emit_float_run (frame : Z) (out : fnum) (s : RS) :
  exists bufs,
    emit_float right frame out s =
    (Ok tt, mkRS (rs_note s) (mkABL (mNumberBuffers (rs_abl s)) bufs)
                 (rs_ended s)).
Proof.
  unfold emit_float, bind, store_float, modify, ret.
  destruct right; simpl; eexists; reflexivity.
Qed.

(** One frame of a release loop with the update [op] of the amplitude. *)
Ltac run_rounded_frame :=
  unfold bind at 1, get; unfold bind at 1, set_amp, modify; unfold bind at 1;
  match goal with
  | |- context [read_val_float g ?ph ?t] =>
      let v := fresh "v" in
      destruct (read_val_float_run ph t) as [v ->]
  end;
  unfold bind at 1, set_phase, modify; unfold bind at 1;
  match goal with
  | |- context [emit_float ?r ?f ?o ?t] =>
      let bufs := fresh "bufs" in
      destruct (emit_float_run f o t) as [bufs ->]; exists bufs; reflexivity
  end.

Lemma release_frame_rounded_run (frame endFrame : Z) (s : RS) :
  exists bufs,
    release_frame_rounded g env right frame endFrame s =
    (Ok (next_endFrame (amp (rs_note s)) frame endFrame),
     mkRS (mkNote (state (rs_note s))
                  (double_add (phase (rs_note s)) (freq_double env))
                  (while_positive
                     (fun x => double_sub x (release_decrement env (rs_note s)))
                     (amp (rs_note s)))
                  (maxamp (rs_note s)) (fast_dn_slope (rs_note s)))
          (mkABL (mNumberBuffers (rs_abl s)) bufs) (rs_ended s)).
Proof.
  unfold release_frame_rounded. run_rounded_frame.
Qed.

Lemma fast_release_frame_rounded_run (frame endFrame : Z) (s : RS) :
  exists bufs,
    fast_release_frame_rounded g env right frame endFrame s =
    (Ok (next_endFrame (amp (rs_note s)) frame endFrame),
     mkRS (mkNote (state (rs_note s))
                  (double_add (phase (rs_note s)) (freq_double env))
                  (while_positive
                     (fun x => double_add x (fast_dn_slope (rs_note s)))
                     (amp (rs_note s)))
                  (maxamp (rs_note s)) (fast_dn_slope (rs_note s)))
          (mkABL (mNumberBuffers (rs_abl s)) bufs) (rs_ended s)).
Proof.
  unfold fast_release_frame_rounded. run_rounded_frame.
Qed.

(** A loop whose body takes the amplitude through [step], keeps what
    [step] depends on and records the end frame as the release loops do. *)
Lemma for_frames_amp (body : Z -> Z -> M RS Z)
    (step : TestNote -> fnum -> fnum) :
  (forall n n', maxamp n' = maxamp n -> fast_dn_slope n' = fast_dn_slope n ->
                step n' = step n) ->
  (forall frame e s,
     exists n' bufs,
       body frame e s =
       (Ok (next_endFrame (amp (rs_note s)) frame e),
        mkRS n' (mkABL (mNumberBuffers (rs_abl s)) bufs) (rs_ended s))
       /\ amp n' = step (rs_note s) (amp (rs_note s))
       /\ maxamp n' = maxamp (rs_note s)
       /\ fast_dn_slope n' = fast_dn_slope (rs_note s)) ->
  forall (count : nat) (frame e : Z) (s : RS),
    exists n' bufs,
      for_frames count frame body e s =
      (Ok (end_frame_of (step (rs_note s)) count frame e (amp (rs_note s))),
       mkRS n' (mkABL (mNumberBuffers (rs_abl s)) bufs) (rs_ended s))
      /\ amp n' = Nat.iter count (step (rs_note s)) (amp (rs_note s)).
Proof.
  intros Hstep Hbody count.
  induction count as [| k IH]; intros frame e s.
  - exists (rs_note s), (mBuffers (rs_abl s)).
    destruct s as [n [nb bs] e']. split; reflexivity.
  - cbn [for_frames end_frame_of]. unfold bind.
    destruct (Hbody frame e s) as [n1 [b1 [-> [A1 [M1 F1]]]]].
    destruct (IH (frame + 1) (next_endFrame (amp (rs_note s)) frame e)
                (mkRS n1 (mkABL (mNumberBuffers (rs_abl s)) b1) (rs_ended s)))
      as [n2 [b2 [E A2]]].
    cbn [rs_note rs_abl rs_ended mNumberBuffers] in E, A2.
    rewrite (Hstep (rs_note s) n1 M1 F1), A1 in E, A2.
    exists n2, b2. split; [exact E |].
    rewrite Nat.iter_succ_r. exact A2.
Qed.

End RoundedFrames.

(** The calls of [NoteEnded] and the amplitude a block of the two release
    states leaves. *)
Lemma Render_rounded_released (g : Globals) (env : Env) (inNumFrames : Z)
    (s : RS) :
  state (rs_note s) = kNoteState_Released ->
  (int_of_UInt32 (mNumberBuffers (rs_abl s)) >? 2) = false ->
  exists n' bufs,
    Render_rounded g env inNumFrames s =
    (Ok noErr,
     mkRS n' (mkABL (mNumberBuffers (rs_abl s)) bufs)
       (rs_ended s
        ++ (if end_frame_of
                 (while_positive
                    (fun x =>
                       double_sub x (release_decrement env (rs_note s))))
                 (Z.to_nat inNumFrames) 0 no_endFrame (amp (rs_note s))
               =? no_endFrame
            then []
            else [end_frame_of
                    (while_positive
                       (fun x =>
                          double_sub x (release_decrement env (rs_note s))))
                    (Z.to_nat inNumFrames) 0 no_endFrame
                    (amp (rs_note s))])))
    /\ amp n' =
       Nat.iter (Z.to_nat inNumFrames)
         (while_positive
            (fun x => double_sub x (release_decrement env (rs_note s))))
         (amp (rs_note s)).
Proof.
  intros St H. unfold Render_rounded, bind at 1, get. rewrite H, St.
  set (right := if int_of_UInt32 (mNumberBuffers (rs_abl s)) =? 2
                then Some 1%nat else None).
  unfold bind.
  destruct (for_frames_amp (release_frame_rounded g env right)
              (fun n => while_positive
                          (fun x => double_sub x (release_decrement env n))))
    with (count := Z.to_nat inNumFrames) (frame := 0) (e := no_endFrame)
         (s := s) as [n' [b [-> A]]].
  - intros n n' Hm _. unfold release_decrement. now rewrite Hm.
  - intros frame e t.
    destruct (release_frame_rounded_run g env right frame e t) as [b ->].
    eexists; eexists. split; [reflexivity |]. repeat split; reflexivity.
  - exists n', b. split; [| exact A].
    unfold report_end, NoteEnded, modify, ret.
    destruct (_ =? no_endFrame); cbn [rs_note rs_abl rs_ended];
      rewrite ?app_nil_r; reflexivity.
Qed.

Lemma Render_rounded_fast_released (g : Globals) (env : Env)
    (inNumFrames : Z) (s : RS) :
  state (rs_note s) = kNoteState_FastReleased ->
  (int_of_UInt32 (mNumberBuffers (rs_abl s)) >? 2) = false ->
  exists n' bufs,
    Render_rounded g env inNumFrames s =
    (Ok noErr,
     mkRS n' (mkABL (mNumberBuffers (rs_abl s)) bufs)
       (rs_ended s
        ++ (if end_frame_of
                 (while_positive
                    (fun x => double_add x (fast_dn_slope (rs_note s))))
                 (Z.to_nat inNumFrames) 0 no_endFrame (amp (rs_note s))
               =? no_endFrame
            then []
            else [end_frame_of
                    (while_positive
                       (fun x => double_add x (fast_dn_slope (rs_note s))))
                    (Z.to_nat inNumFrames) 0 no_endFrame
                    (amp (rs_note s))])))
    /\ amp n' =
       Nat.iter (Z.to_nat inNumFrames)
         (while_positive
            (fun x => double_add x (fast_dn_slope (rs_note s))))
         (amp (rs_note s)).
Proof.
  intros St H. unfold Render_rounded, bind at 1, get. rewrite H, St.
  set (right := if int_of_UInt32 (mNumberBuffers (rs_abl s)) =? 2
                then Some 1%nat else None).
  unfold bind.
  destruct (for_frames_amp (fast_release_frame_rounded g env right)
              (fun n => while_positive
                          (fun x => double_add x (fast_dn_slope n))))
    with (count := Z.to_nat inNumFrames) (frame := 0) (e := no_endFrame)
         (s := s) as [n' [b [-> A]]].
  - intros n n' _ Hf. now rewrite Hf.
  - intros frame e t.
    destruct (fast_release_frame_rounded_run g env right frame e t)
      as [b ->].
    eexists; eexists. split; [reflexivity |]. repeat split; reflexivity.
  - exists n', b. split; [| exact A].
    unfold report_end, NoteEnded, modify, ret.
    destruct (_ =? no_endFrame); cbn [rs_note rs_abl rs_ended];
      rewrite ?app_nil_r; reflexivity.
Qed.

(** An amplitude updated by [op] while it is positive moves for as many
    frames as find it positive and then stays where it is. *)
Lemma iter_while_positive (op : fnum -> fnum) (k : nat) :
  forall (count : nat) (a : fnum),
    (forall j, (j < k)%nat -> fgt (Nat.iter j op a) (Fin 0) = true) ->
    fgt (Nat.iter k op a) (Fin 0) = false ->
    Nat.iter count (while_positive op) a = Nat.iter (Nat.min count k) op a.
Proof.
  induction k as [| k IH]; intros count a Hpos Hend.
  - rewrite Nat.min_0_r. cbn [Nat.iter nat_rect] in *.
    induction count as [| c IHc]; [reflexivity |].
    rewrite Nat.iter_succ_r. unfold while_positive at 2. rewrite Hend.
    exact IHc.
  - destruct count as [| c]; [reflexivity |].
    pose proof (Hpos 0%nat ltac:(lia)) as P0. cbn [Nat.iter nat_rect] in P0.
    rewrite Nat.iter_succ_r. unfold while_positive at 2. rewrite P0.
    rewrite (IH c (op a)).
    + rewrite <- Nat.iter_succ_r. reflexivity.
    + intros j Hj. rewrite <- Nat.iter_succ_r. apply Hpos. lia.
    + rewrite <- Nat.iter_succ_r. exact Hend.
Qed.

(** A loop of [inNumFrames] frames whose amplitude is updated by [op] while
    it is positive: what it reports. *)
Lemma first_spent_frame_reported (op : fnum -> fnum) (inNumFrames : Z)
    (a : fnum) (k : nat) :
  Z.of_nat k < inNumFrames -> inNumFrames < 2 ^ 32 ->
  (forall j, (j < k)%nat -> fgt (Nat.iter j op a) (Fin 0) = true) ->
  fgt (Nat.iter k op a) (Fin 0) = false ->
  (if end_frame_of (while_positive op) (Z.to_nat inNumFrames) 0 no_endFrame a
      =? no_endFrame
   then []
   else [end_frame_of (while_positive op) (Z.to_nat inNumFrames) 0
           no_endFrame a])
  = [Z.of_nat k].
Proof.
  intros Hk HN Hpos Hend.
  rewrite (end_frame_of_first op k (Z.to_nat inNumFrames) 0 a)
    by (try assumption; unfold no_endFrame; lia).
  destruct (Z.eqb_spec (0 + Z.of_nat k) no_endFrame) as [X | X];
    [unfold no_endFrame in X; lia | reflexivity].
Qed.

Lemma no_spent_frame_reported (op : fnum -> fnum) (inNumFrames : Z)
    (a : fnum) :
  (forall j : nat, Z.of_nat j < inNumFrames ->
                   fgt (Nat.iter j op a) (Fin 0) = true) ->
  (if end_frame_of (while_positive op) (Z.to_nat inNumFrames) 0 no_endFrame a
      =? no_endFrame
   then []
   else [end_frame_of (while_positive op) (Z.to_nat inNumFrames) 0
           no_endFrame a])
  = [].
Proof.
  intro Hpos.
  rewrite (end_frame_of_none op (Z.to_nat inNumFrames) 0 a)
    by (intros j Hj; apply Hpos; lia).
  now rewrite Z.eqb_refl.
Qed.

(** C6, as stated, fails.  At 10 Hz with a release time of 1 s a released
    note of amplitude and maximum amplitude 1 is reported at frame 11 of a
    block of 16 frames, while ceil (a0 / (maxamp / (sampleRate *
    releaseTime))) is 10, both as a rational and computed in [double]: the
    decrement is the [double] next to 0.1, and ten subtractions of it, each
    rounded, leave a positive amplitude. *)
Lemma released_end_frame_counterexample :
  rs_ended (snd (Render_rounded fed_globals slow_env 16 (released_block 16)))
  = [11]
  /\ Qceiling (1 / (1 / (10 * 1))) = 10
  /\ feq (double_div (amp (rs_note (released_block 16)))
            (release_decrement slow_env (rs_note (released_block 16))))
         (Fin 10)
  /\ fgt (after_decrements
            (release_decrement slow_env (rs_note (released_block 16)))
            10 (Fin 1)) (Fin 0) = true.
Proof. vm_compute. repeat split; reflexivity. Qed.

(** C6, amended: a released note rendered with an accepted channel count
    over a block of [inNumFrames] frames.  Every frame that finds the
    amplitude positive subtracts maxamp / (sampleRate * releaseTime) from
    it, quotient and difference rounded to [double].  If frame [k] of the
    block is the first that finds the amplitude no longer positive, the
    call makes one call of [NoteEnded], with [k]; if every frame of the
    block finds it positive, the call makes none; a note whose amplitude is
    not positive when the block begins, 0 for one, is reported at frame 0. *)
Theorem released_note_first_spent_frame (g : Globals) (env : Env)
    (inNumFrames : Z) (s : RS) :
  state (rs_note s) = kNoteState_Released ->
  (int_of_UInt32 (mNumberBuffers (rs_abl s)) >? 2) = false ->
  inNumFrames < 2 ^ 32 ->
  (forall k : nat,
     Z.of_nat k < inNumFrames ->
     (forall j, (j < k)%nat ->
        fgt (after_decrements (release_decrement env (rs_note s)) j
               (amp (rs_note s))) (Fin 0) = true) ->
     fgt (after_decrements (release_decrement env (rs_note s)) k
            (amp (rs_note s))) (Fin 0) = false ->
     rs_ended (snd (Render_rounded g env inNumFrames s)) =
       rs_ended s ++ [Z.of_nat k])
  /\ ((forall j : nat,
         Z.of_nat j < inNumFrames ->
         fgt (after_decrements (release_decrement env (rs_note s)) j
                (amp (rs_note s))) (Fin 0) = true) ->
      rs_ended (snd (Render_rounded g env inNumFrames s)) = rs_ended s)
  /\ (fgt (amp (rs_note s)) (Fin 0) = false -> 0 < inNumFrames ->
      rs_ended (snd (Render_rounded g env inNumFrames s)) =
        rs_ended s ++ [0]).
Proof.
  intros St Hc HN.
  destruct (Render_rounded_released g env inNumFrames s St Hc)
    as [n' [b [-> _]]].
  cbn [snd rs_ended]. unfold after_decrements. repeat split.
  - intros k Hk Hpos Hend. f_equal.
    now apply first_spent_frame_reported.
  - intro Hpos. rewrite no_spent_frame_reported by exact Hpos.
    apply app_nil_r.
  - intros Hend H0. f_equal.
    apply (first_spent_frame_reported _ inNumFrames (amp (rs_note s)) 0);
      try assumption.
    intros j Hj. lia.
Qed.

(** C6 on the block of section 8: 44100 Hz, release time 0.001 s, maximum
    and starting amplitude 1, 4096 frames.  The first 45 frames find a
    positive amplitude, frame 45 does not: the note ends at frame 45. *)
Lemma released_note_first_spent_frame_witness :
  rs_ended (snd (Render_rounded fed_globals test_env 4096
                   (released_block 4096)))
  = [45].
Proof.
  refine (proj1 (released_note_first_spent_frame fed_globals test_env 4096
                   (released_block 4096) eq_refl eq_refl eq_refl)
            45%nat eq_refl _ _).
  - intros j Hj.
    do 45 (destruct j as [| j]; [vm_compute; reflexivity |]).
    lia.
  - vm_compute. reflexivity.
Defined.

(** The same at 48000 Hz with a release time of 1/64 s: the quotient of
    the claim is 750, as a rational and computed in [double], and the note
    ends at frame 751. *)
Example released_end_frame_at_48000 :
  rs_ended (snd (Render_rounded fed_globals studio_env 768
                   (released_block 768)))
  = [751]
  /\ Qceiling (1 / (1 / (48000 * (1 # 64)))) = 750
  /\ feq (double_div (amp (rs_note (released_block 768)))
            (release_decrement studio_env (rs_note (released_block 768))))
         (Fin 750).
Proof. vm_compute. repeat split; reflexivity. Qed.

(** ** The moving average under the division *)

(** With a positive moving average the division is safe: finite sample,
    amplitude and volume give a finite output. *)
Lemma out_sample_finite (g : Globals) (env : Env) (m vol v a : Q) :
  moving_average g = Fin m -> (0 < m)%Q -> globalVol env = Fin vol ->
  is_finite (out_sample g env (Fin v) (Fin a)) = true.
Proof.
  intros Hm Pm Hvol. unfold out_sample. rewrite Hm, Hvol.
  cbn [fsub fadd fopp]. rewrite fdiv_fin_pos by exact Pm. reflexivity.
Qed.

(** C1 fails on the code: no frame tests the moving average before dividing
    by it.  Before the first reading ([moving_average] = 0, empty buffer)
    one frame of each of the three loops computes (0 - 0) / 0 and adds the
    resulting NaN to the output buffer. *)
Theorem Render_divides_by_zero_moving_average :
  startup_frame kNoteState_Attacked 0 = [[NaN]]
  /\ startup_frame kNoteState_Released 1 = [[NaN]]
  /\ startup_frame kNoteState_FastReleased 1 = [[NaN]]
  /\ forall val a : fnum,
       is_finite (out_sample initial_globals test_env val a) = false.
Proof.
  repeat split; try (vm_compute; reflexivity).
  intros val a. unfold out_sample. cbn [moving_average initial_globals].
  destruct val as [v | | |]; cbn [fsub fadd fopp fdiv].
  - change (Qeq_bool 0 0) with true. cbn iota.
    destruct (Qsign (v + - 0)); cbn [inf_signed];
      destruct a as [x | | |]; cbn; try reflexivity;
      destruct (Qsign x); reflexivity.
  - destruct a as [x | | |]; cbn; try reflexivity;
      destruct (Qsign x); reflexivity.
  - destruct a as [x | | |]; cbn; try reflexivity;
      destruct (Qsign x); reflexivity.
  - destruct a; reflexivity.
Qed.

(** ** The voice allocator *)

Lemma oldest_active_some (pool : list Voice) :
  (0 < active_count pool)%nat -> exists i, oldest_active pool = Some i.
Proof.
  unfold active_count. induction pool as [| v rest IH]; simpl; [lia |].
  intro H. destruct (oldest_active rest) as [j |].
  - destruct (_ && _); eauto.
  - destruct (is_active v); [eauto |]. destruct (IH H) as [i Hi]. discriminate.
Qed.

Lemma oldest_active_is_active (pool : list Voice) (i : nat) :
  oldest_active pool = Some i ->
  exists v, nth_error pool i = Some v /\ is_active v = true.
Proof.
  revert i. induction pool as [| v rest IH]; simpl; intros i H;
    [discriminate |].
  destruct (oldest_active rest) as [j |].
  - destruct (is_active v) eqn:A; simpl in H.
    + destruct (_ <=? _)%nat; inversion H; subst; simpl; eauto.
    + inversion H; subst. simpl. eauto.
  - destruct (is_active v) eqn:A; inversion H; subst. simpl. eauto.
Qed.

Lemma nth_error_update (i : nat) (f : Voice -> Voice) (pool : list Voice)
    (v : Voice) :
  nth_error pool i = Some v -> nth_error (update i f pool) i = Some (f v).
Proof.
  revert i. induction pool as [| w rest IH]; intros [| k] H; simpl in *;
    try discriminate.
  - now inversion H.
  - now apply IH.
Qed.

(** C7 (against the allocator as the spec describes it): when a note-on
    finds no free voice and the active count at capacity, the call first
    leaves a pool in which the victim, an active or released voice up to
    then, is in the fast-released state, and only then a pool in which the
    victim's slot holds the new note.  The notification the victim gets,
    [TestNote::FastRelease], has made its one call into the base class.
    Fast-released is the state whose frame in [Render] adds [fast_dn_slope]
    to a positive amplitude. *)
Theorem noteOn_steals_through_fast_release (pitch : Z) (clock : nat)
    (inFrame : Z) (pool : list Voice) :
  find_free pool = None -> active_count pool = kMaxActiveNotes ->
  exists victim before stolen,
    nth_error pool victim = Some before
    /\ is_active before = true
    /\ noteOn pitch clock inFrame pool =
       [update victim (force_fast_release inFrame) pool;
        update victim (claimed pitch clock)
          (update victim (force_fast_release inFrame) pool)]
    /\ nth_error (update victim (force_fast_release inFrame) pool) victim
       = Some stolen
    /\ state (v_note stolen) = kNoteState_FastReleased
    /\ v_calls stolen = v_calls before ++ [SynthNote_Release inFrame]
    /\ forall g env bufs ended,
         amp (rs_note (snd (Render g env 1
                              (mkRS (v_note stolen) (mkABL 1 bufs) ended)))) =
         if fgt (amp (v_note before)) (Fin 0)
         then fadd (amp (v_note before)) (fast_dn_slope (v_note before))
         else amp (v_note before).
Proof.
  intros Hfree Hcount.
  destruct (oldest_active_some pool) as [victim Hv];
    [rewrite Hcount; unfold kMaxActiveNotes; lia |].
  destruct (oldest_active_is_active pool victim Hv) as [before [Hn Ha]].
  exists victim, before, (force_fast_release inFrame before).
  split; [exact Hn |]. split; [exact Ha |].
  split.
  { unfold noteOn. rewrite Hfree, Hcount, Nat.eqb_refl, Hv. reflexivity. }
  split; [now apply nth_error_update |].
  split; [reflexivity |]. split; [reflexivity |].
  intros g env bufs ended.
  destruct (Render_run g env 1
              (mkRS (v_note (force_fast_release inFrame before))
                    (mkABL 1 bufs) ended) eq_refl) as [b ->].
  reflexivity.
Qed.

(** C7 on a pool of eight held voices. *)
Lemma noteOn_steals_through_fast_release_witness :
  exists victim before stolen,
    nth_error (map held_voice [3; 1; 4; 2; 8; 5; 7; 6]%nat) victim
    = Some before
    /\ is_active before = true
    /\ noteOn 72 9 0 (map held_voice [3; 1; 4; 2; 8; 5; 7; 6]%nat) =
       [update victim (force_fast_release 0)
          (map held_voice [3; 1; 4; 2; 8; 5; 7; 6]%nat);
        update victim (claimed 72 9)
          (update victim (force_fast_release 0)
             (map held_voice [3; 1; 4; 2; 8; 5; 7; 6]%nat))]
    /\ nth_error (update victim (force_fast_release 0)
                    (map held_voice [3; 1; 4; 2; 8; 5; 7; 6]%nat)) victim
       = Some stolen
    /\ state (v_note stolen) = kNoteState_FastReleased
    /\ v_calls stolen = v_calls before ++ [SynthNote_Release 0]
    /\ forall g env bufs ended,
         amp (rs_note (snd (Render g env 1
                              (mkRS (v_note stolen) (mkABL 1 bufs) ended)))) =
         if fgt (amp (v_note before)) (Fin 0)
         then fadd (amp (v_note before)) (fast_dn_slope (v_note before))
         else amp (v_note before).
Proof.
  apply (noteOn_steals_through_fast_release 72 9 0
           (map held_voice [3; 1; 4; 2; 8; 5; 7; 6]%nat)); reflexivity.
Defined.

(** The notifications of a released and of a stolen note make the same call
    into the base class. *)
Example FastRelease_forwards_to_Release (inFrame : Z) (v : Voice) :
  TestNote_FastRelease inFrame v = TestNote_Release inFrame v
  /\ v_calls (TestNote_FastRelease inFrame v) =
     v_calls v ++ [SynthNote_Release inFrame].
Proof. split; reflexivity. Qed.

(** On that pool the victim is the voice triggered first, in slot 1. *)
Example noteOn_steals_oldest :
  oldest_active (map held_voice [3; 1; 4; 2; 8; 5; 7; 6]%nat) = Some 1%nat.
Proof. reflexivity. Qed.

(** * Further properties of the sensor thread *)

(** ** The moving average over many readings *)

Lemma for_each_push_cons (r : Z) (rs : list Z) (g : Globals) :
  snd (for_each (r :: rs) push g) = snd (for_each rs push (snd (push r g))).
Proof. reflexivity. Qed.

Lemma Qpower_nat_succ (q : Q) (n : nat) :
  ~ (q == 0)%Q -> (q ^ Z.of_nat (S n) == q * q ^ Z.of_nat n)%Q.
Proof.
  intro Hq. rewrite Nat2Z.inj_succ. unfold Z.succ.
  rewrite Qpower_plus by exact Hq. rewrite Qpower_1_r. ring.
Qed.

(** X1: pushing the same reading [r] [n] times moves the moving average
    toward r + 10: its distance to r + 10 is 0.9^n times the distance it
    started with.  So r + 10 is the value the average settles at and
    keeps. *)
Theorem push_repeat_converges (r : Z) (n : nat) (cb : circular_buffer)
    (m0 : Q) :
  feq (moving_average
         (snd (for_each (repeat r n) push (mkGlobals cb (Fin m0)))))
      (Fin (inject_Z r + 10
            + (9 # 10) ^ Z.of_nat n * (m0 - (inject_Z r + 10)))).
Proof.
  revert cb m0. induction n as [| n IH]; intros cb m0.
  - cbn [repeat for_each ret snd moving_average feq].
    change ((9 # 10) ^ Z.of_nat 0)%Q with 1%Q. ring.
  - cbn [repeat]. rewrite for_each_push_cons, push_run. cbn [snd].
    specialize (IH (cb_push_back buf_size r cb)
                  ((9 # 10) * m0 + (1 - (9 # 10)) * inject_Z r + 1)%Q).
    destruct (moving_average _) as [x | | |]; cbn [feq] in *;
      try contradiction.
    rewrite IH, Qpower_nat_succ by discriminate. ring.
Qed.

Lemma push_average_within (r : Z) (R : Q) (g : Globals) :
  0 <= r -> (inject_Z r <= R)%Q -> average_within 0 (R + 10) g ->
  average_within 1 (R + 10) (snd (push r g)).
Proof.
  intros Hr HR Hg. destruct g as [cb ma]. unfold average_within in *.
  cbn [moving_average] in Hg. destruct ma as [a | | |]; try contradiction.
  rewrite push_run. cbn [snd moving_average].
  assert (H : (0 <= inject_Z r)%Q) by (unfold Qle; simpl; lia).
  lra.
Qed.

Lemma for_each_push_within (rs : list Z) (R : Q) (g : Globals) :
  Forall (fun x => 0 <= x /\ (inject_Z x <= R)%Q) rs ->
  average_within 1 (R + 10) g ->
  average_within 1 (R + 10) (snd (for_each rs push g)).
Proof.
  intro H. revert g. induction H as [| r rs [Hr HR] _ IH]; intros g Hg.
  - exact Hg.
  - rewrite for_each_push_cons. apply IH.
    apply push_average_within; [exact Hr | exact HR |].
    unfold average_within in *.
    destruct (moving_average g); [lra | contradiction ..].
Qed.

(** X2: while every reading lies between 0 and [R], a moving average that
    starts between 0 and R + 10 (the initial 0 does) lies between 1 and
    R + 10 after the first reading and after every further one.  The bound
    R + 10 is the best one: it is the value X1 converges to. *)
Theorem moving_average_bounded (r : Z) (rs : list Z) (R : Q) (g : Globals) :
  Forall (fun x => 0 <= x /\ (inject_Z x <= R)%Q) (r :: rs) ->
  average_within 0 (R + 10) g ->
  average_within 1 (R + 10) (snd (for_each (r :: rs) push g)).
Proof.
  intros Hall Hg. inversion Hall as [| x l [Hr HR] Hrs]; subst.
  rewrite for_each_push_cons. apply for_each_push_within; [exact Hrs |].
  now apply push_average_within.
Qed.

(** X2 on the readings 0, 3, 120 with R = 120. *)
Lemma moving_average_bounded_witness :
  average_within 1 (120 + 10) three_readings.
Proof.
  apply (moving_average_bounded 0 [3; 120] 120 initial_globals).
  - repeat constructor; try lia; vm_compute; congruence.
  - vm_compute. split; congruence.
Defined.

(** ** The ring buffer over many readings *)

Lemma lastn_all {A} (n : nat) (l : list A) :
  (length l <= n)%nat -> lastn n l = l.
Proof.
  intro H. unfold lastn. replace (length l - n)%nat with 0%nat by lia.
  reflexivity.
Qed.

Lemma lastn_length {A} (n : nat) (l : list A) :
  length (lastn n l) = Nat.min n (length l).
Proof. unfold lastn. rewrite length_skipn. lia. Qed.

Lemma lastn_app_lastn {A} (n : nat) (l l' : list A) :
  lastn n (lastn n l ++ l') = lastn n (l ++ l').
Proof.
  destruct (Nat.le_gt_cases (length l) n) as [H | H].
  - now rewrite (lastn_all n l H).
  - unfold lastn at 1 3. rewrite !length_app. fold (lastn n l).
    rewrite lastn_length. replace (Nat.min n (length l)) with n by lia.
    replace (length l + length l' - n)%nat
      with (length l' + (length l - n))%nat by lia.
    replace (n + length l' - n)%nat with (length l') by lia.
    rewrite <- skipn_skipn. f_equal.
    rewrite skipn_app. unfold lastn.
    replace (length l - n - length l)%nat with 0%nat by lia.
    reflexivity.
Qed.

Lemma cb_push_back_lastn (x : Z) (cb : circular_buffer) :
  (length cb <= Z.to_nat buf_size)%nat ->
  cb_push_back buf_size x cb = lastn (Z.to_nat buf_size) (cb ++ [x]).
Proof.
  intro H. unfold cb_push_back. change (buf_size <=? 0) with false. cbn iota.
  change (Z.to_nat buf_size) with 128%nat in *. unfold buf_size.
  destruct (Z.ltb_spec (Z.of_nat (length cb)) 128) as [L | L].
  - rewrite lastn_all; [reflexivity |]. rewrite length_app. simpl. lia.
  - unfold lastn. rewrite length_app. simpl length.
    replace (length cb + 1 - 128)%nat with 1%nat by lia.
    destruct cb; [simpl in L; lia | reflexivity].
Qed.

Lemma c_buf_push (r : Z) (g : Globals) :
  c_buf (snd (push r g)) = cb_push_back buf_size r (c_buf g).
Proof. reflexivity. Qed.

(** X3: the ring buffer keeps the most recent readings, oldest first, and
    never more than [buf_size] = 128 of them: after any run of pushes it
    holds the last 128 elements of what it held followed by the readings
    pushed. *)
Theorem c_buf_keeps_latest (rs : list Z) (g : Globals) :
  (length (c_buf g) <= Z.to_nat buf_size)%nat ->
  c_buf (snd (for_each rs push g)) = lastn (Z.to_nat buf_size) (c_buf g ++ rs)
  /\ (length (c_buf (snd (for_each rs push g))) <= Z.to_nat buf_size)%nat.
Proof.
  intro H.
  assert (E : c_buf (snd (for_each rs push g)) =
              lastn (Z.to_nat buf_size) (c_buf g ++ rs)).
  { revert g H. induction rs as [| r rs IH]; intros g H.
    - cbn [for_each ret snd]. now rewrite app_nil_r, lastn_all.
    - rewrite for_each_push_cons, IH.
      + rewrite c_buf_push, cb_push_back_lastn by exact H.
        rewrite lastn_app_lastn, <- app_assoc. reflexivity.
      + rewrite c_buf_push, cb_push_back_lastn by exact H.
        rewrite lastn_length. lia. }
  split; [exact E |]. rewrite E, lastn_length. lia.
Qed.

(** X3 on the initial globals and three readings. *)
Lemma c_buf_keeps_latest_witness :
  c_buf three_readings = [0; 3; 120]
  /\ (length (c_buf three_readings) <= 128)%nat.
Proof.
  apply (c_buf_keeps_latest [0; 3; 120] initial_globals). simpl. lia.
Defined.

Lemma nth_skipn_shift {A} (k i : nat) (l : list A) (d : A) :
  nth i (skipn k l) d = nth (k + i) l d.
Proof.
  revert l. induction k as [| k IH]; intro l; [reflexivity |].
  destruct l as [| x l]; [destruct i; reflexivity | apply IH].
Qed.

(** X4: what the thread pushes is what the renderer reads.  After a run of
    pushes, the read at index [i] inside the filled range returns the
    reading that stands [i] places after the start of the last 128, with
    1000 in place of every reading of 1000 or more. *)
Theorem sample_after_pushes (rs : list Z) (g : Globals) (i : nat) (s : RS) :
  (length (c_buf g) <= Z.to_nat buf_size)%nat ->
  (i < Nat.min (Z.to_nat buf_size) (length (c_buf g ++ rs)))%nat ->
  sample_at (snd (for_each rs push g)) (Z.of_nat i) s =
  (Ok (let r := nth (length (c_buf g ++ rs) - Z.to_nat buf_size + i)
                    (c_buf g ++ rs) 0 in
       if 1000 <=? r then Fin 1000 else Fin (inject_Z r)),
   s).
Proof.
  intros H Hi. rewrite sample_at_run.
  destruct (c_buf_keeps_latest rs g H) as [E _].
  unfold sample_value, in_filled_range. rewrite E, lastn_length.
  destruct (Z.leb_spec 0 (Z.of_nat i)); [| lia].
  destruct (Z.ltb_spec (Z.of_nat i)
              (Z.of_nat (Nat.min (Z.to_nat buf_size)
                           (length (c_buf g ++ rs))))); [| lia].
  cbn [andb]. rewrite Nat2Z.id. unfold lastn. rewrite nth_skipn_shift.
  reflexivity.
Qed.

(** X4 on three readings: index 2 holds the reading 120. *)
Lemma sample_after_pushes_witness :
  sample_at three_readings 2 (mkRS (test_note kNoteState_Attacked 0 0)
                                   (mono 1) [])
  = (Ok (Fin (inject_Z 120)),
     mkRS (test_note kNoteState_Attacked 0 0) (mono 1) []).
Proof.
  apply (sample_after_pushes [0; 3; 120] initial_globals 2
           (mkRS (test_note kNoteState_Attacked 0 0) (mono 1) []));
    simpl; lia.
Defined.

(** ** The loop and the flag *)

Lemma subscriber_body_flag (ev : scan_result * bool) (g : Globals) :
  subscriber_body ev g = subscriber_body (fst ev, false) g.
Proof.
  destruct ev as [[samples |] flag]; cbn [fst].
  - now rewrite !subscriber_body_scan.
  - reflexivity.
Qed.

Lemma subscriber_body_result (ev : scan_result * bool) (g : Globals) :
  fst (subscriber_body ev g) =
  if scan_failed ev then Raise device_error else Ok tt.
Proof.
  destruct ev as [[samples |] flag]; unfold scan_failed; cbn [fst].
  - now rewrite subscriber_body_scan.
  - reflexivity.
Qed.

(** X5: the value of [exit_flag] has no influence on the loop.  The run
    against any scans and flags is the run against the same scans with the
    flag never set; it leaves the loop if and only if a scan fails, then
    with the device's error and never with [thread_aborted]. *)
Theorem subscriber_ignores_exit_flag (events : list (scan_result * bool))
    (g : Globals) :
  subscriber events g = subscriber (without_flags events) g
  /\ fst (subscriber events g) =
     if existsb scan_failed events then Raise device_error else Ok tt.
Proof.
  split.
  - revert g. induction events as [| ev events IH]; intro g; [reflexivity |].
    cbn [without_flags map subscriber]. unfold bind.
    rewrite (subscriber_body_flag ev g).
    destruct (subscriber_body (fst ev, false) g) as [[[] | e] g'];
      [apply IH | reflexivity].
  - revert g. induction events as [| ev events IH]; intro g; [reflexivity |].
    cbn [subscriber existsb]. unfold bind.
    pose proof (subscriber_body_result ev g) as R.
    destruct (subscriber_body ev g) as [[[] | e] g']; cbn [fst] in R.
    + destruct (scan_failed ev); [discriminate | apply IH].
    + destruct (scan_failed ev); [| discriminate]. cbn. exact R.
Qed.

(** * Further properties of [Render] *)

(** ** The whole effect of a block *)

Lemma emit_bufs_run (right : option nat) (frame : Z) (out : fnum) (s : RS) :
  emit right frame out s =
  (Ok tt,
   mkRS (rs_note s)
        (mkABL (mNumberBuffers (rs_abl s))
               (emit_bufs right frame out (mBuffers (rs_abl s))))
        (rs_ended s)).
Proof.
  unfold emit, emit_bufs, bind, store, modify, ret.
  destruct right; reflexivity.
Qed.

Ltac run_frame_bufs :=
  unfold bind, get, set_amp, set_phase, modify;
  rewrite read_val_run, emit_bufs_run; reflexivity.

Section BlockFacts.

Variable g : Globals.
Variable env : Env.
Variable right : option nat.

Lemma attack_frame_full (frame : Z) (s : RS) :
  attack_frame g env right frame tt s =
  (Ok tt,
   mkRS (attack_note env (rs_note s))
        (mkABL (mNumberBuffers (rs_abl s))
               (emit_bufs right frame
                  (frame_out g env (attack_note env) (rs_note s))
                  (mBuffers (rs_abl s))))
        (rs_ended s)).
Proof. unfold attack_frame. run_frame_bufs. Qed.

Lemma release_frame_full (frame endFrame : Z) (s : RS) :
  release_frame g env right frame endFrame s =
  (Ok (next_endFrame (amp (rs_note s)) frame endFrame),
   mkRS (release_note env (rs_note s))
        (mkABL (mNumberBuffers (rs_abl s))
               (emit_bufs right frame
                  (frame_out g env (release_note env) (rs_note s))
                  (mBuffers (rs_abl s))))
        (rs_ended s)).
Proof. unfold release_frame. run_frame_bufs. Qed.

Lemma fast_release_frame_full (frame endFrame : Z) (s : RS) :
  fast_release_frame g env right frame endFrame s =
  (Ok (next_endFrame (amp (rs_note s)) frame endFrame),
   mkRS (fast_release_note env (rs_note s))
        (mkABL (mNumberBuffers (rs_abl s))
               (emit_bufs right frame
                  (frame_out g env (fast_release_note env) (rs_note s))
                  (mBuffers (rs_abl s))))
        (rs_ended s)).
Proof. unfold fast_release_frame. run_frame_bufs. Qed.

(** A loop whose body does what [step] and [emit_bufs] say leaves the
    iterated note and the buffers of [block_bufs]. *)
Lemma for_frames_full {L : Type} (body : Z -> L -> M RS L)
    (step : TestNote -> TestNote) (next : fnum -> Z -> L -> L) :
  (forall frame l s,
     body frame l s =
     (Ok (next (amp (rs_note s)) frame l),
      mkRS (step (rs_note s))
           (mkABL (mNumberBuffers (rs_abl s))
                  (emit_bufs right frame (frame_out g env step (rs_note s))
                     (mBuffers (rs_abl s))))
           (rs_ended s))) ->
  forall (count : nat) (frame : Z) (l : L) (s : RS),
    snd (for_frames count frame body l s) =
    mkRS (Nat.iter count step (rs_note s))
         (mkABL (mNumberBuffers (rs_abl s))
                (block_bufs g env right step count frame (rs_note s)
                   (mBuffers (rs_abl s))))
         (rs_ended s).
Proof.
  intros Hbody count. induction count as [| k IH]; intros frame l s.
  - destruct s as [n [nb bs] e]. reflexivity.
  - cbn [for_frames block_bufs]. unfold bind. rewrite Hbody.
    rewrite IH. cbn [rs_note rs_abl rs_ended mNumberBuffers mBuffers].
    rewrite Nat.iter_succ_r. reflexivity.
Qed.

End BlockFacts.

(** The buffers of an accepted call. *)
Lemma Render_bufs (g : Globals) (env : Env) (inNumFrames : Z) (s : RS) :
  (int_of_UInt32 (mNumberBuffers (rs_abl s)) >? 2) = false ->
  mBuffers (rs_abl (snd (Render g env inNumFrames s))) =
  render_bufs g env (Z.to_nat inNumFrames) s.
Proof.
  intro H. unfold Render, bind at 1, get. rewrite H.
  fold (right_of (rs_abl s)). unfold render_bufs.
  set (right := right_of (rs_abl s)).
  set (count := Z.to_nat inNumFrames).
  destruct (state (rs_note s)) eqn:St; cbn [frame_step].
  1-4: unfold bind;
       pose proof (for_frames_full g env right (attack_frame g env right)
                     (attack_note env) (fun _ _ u => u)
                     (fun f l t => match l with tt =>
                        attack_frame_full g env right f t end)
                     count 0 tt s) as E;
       destruct (for_frames count 0 (attack_frame g env right) tt s)
         as [[u | e] t]; cbn [snd] in E; subst t; reflexivity.
  - unfold bind.
    pose proof (for_frames_full g env right (release_frame g env right)
                  (release_note env) next_endFrame
                  (release_frame_full g env right) count 0 no_endFrame s)
      as E.
    destruct (for_frames count 0 (release_frame g env right) no_endFrame s)
      as [[u | e] t]; cbn [snd] in E; subst t; [| reflexivity].
    unfold report_end, NoteEnded, modify, ret.
    destruct (u =? no_endFrame); reflexivity.
  - unfold bind.
    pose proof (for_frames_full g env right (fast_release_frame g env right)
                  (fast_release_note env) next_endFrame
                  (fast_release_frame_full g env right) count 0
                  no_endFrame s) as E.
    destruct (for_frames count 0 (fast_release_frame g env right)
                no_endFrame s)
      as [[u | e] t]; cbn [snd] in E; subst t; [| reflexivity].
    unfold report_end, NoteEnded, modify, ret.
    destruct (u =? no_endFrame); reflexivity.
  - reflexivity.
Qed.

(** ** What a block writes *)

Lemma add_at_length (f : nat) (out : fnum) (l : list fnum) :
  length (add_at f out l) = length l.
Proof.
  revert f. induction l as [| x l IH]; intros [| f]; simpl; auto.
Qed.

Lemma add_at_skipn (N f : nat) (out : fnum) (l : list fnum) :
  (f < N)%nat -> skipn N (add_at f out l) = skipn N l.
Proof.
  revert N f. induction l as [| x l IH]; intros [| N] [| f] H; simpl;
    try reflexivity; try lia.
  apply IH. lia.
Qed.

Lemma add_chan_shape (N c f : nat) (out : fnum) (b : list (list fnum)) :
  (f < N)%nat ->
  map (@length fnum) (add_chan c f out b) = map (@length fnum) b
  /\ map (skipn N) (add_chan c f out b) = map (skipn N) b.
Proof.
  intro H. revert c. induction b as [| x b IH]; intros [| c]; simpl;
    try (split; reflexivity).
  - rewrite add_at_length, add_at_skipn by exact H. split; reflexivity.
  - destruct (IH c) as [E1 E2]. rewrite E1, E2. split; reflexivity.
Qed.

Lemma add_chan_tail (f : nat) (out : fnum) (b : list (list fnum)) :
  tl (add_chan 0 f out b) = tl b.
Proof. destruct b; reflexivity. Qed.

Lemma block_bufs_inv (P : list (list fnum) -> Prop) (g : Globals) (env : Env)
    (right : option nat) (step : TestNote -> TestNote) (count : nat) :
  forall (frame : Z) (n : TestNote) (bufs : list (list fnum)),
    (forall f out b,
        frame <= f < frame + Z.of_nat count -> P b ->
        P (emit_bufs right f out b)) ->
    P bufs -> P (block_bufs g env right step count frame n bufs).
Proof.
  induction count as [| k IH]; intros frame n bufs Hstep HP; [exact HP |].
  cbn [block_bufs]. apply IH.
  - intros f out b Hf Hb. apply Hstep; [lia | exact Hb].
  - apply Hstep; [lia | exact HP].
Qed.

Lemma render_bufs_inv (P : list (list fnum) -> Prop) (g : Globals) (env : Env)
    (count : nat) (s : RS) :
  (forall f out b,
      0 <= f < Z.of_nat count -> P b ->
      P (emit_bufs (right_of (rs_abl s)) f out b)) ->
  P (mBuffers (rs_abl s)) -> P (render_bufs g env count s).
Proof.
  intros Hstep HP. unfold render_bufs.
  destruct (state (rs_note s)); try exact HP;
    (apply block_bufs_inv;
     [intros f out b Hf Hb; apply Hstep; [lia | exact Hb] | exact HP]).
Qed.

(** Every call leaves buffers that satisfy what the stores of its frames
    preserve. *)
Lemma Render_bufs_inv (P : list (list fnum) -> Prop) (g : Globals) (env : Env)
    (inNumFrames : Z) (s : RS) :
  (forall f out b,
      0 <= f < inNumFrames -> P b ->
      P (emit_bufs (right_of (rs_abl s)) f out b)) ->
  P (mBuffers (rs_abl s)) ->
  P (mBuffers (rs_abl (snd (Render g env inNumFrames s)))).
Proof.
  intros Hstep HP.
  destruct (int_of_UInt32 (mNumberBuffers (rs_abl s)) >? 2) eqn:H.
  - rewrite Render_rejects by exact H. exact HP.
  - rewrite Render_bufs by exact H. apply render_bufs_inv; [| exact HP].
    intros f out b Hf Hb. apply Hstep; [lia | exact Hb].
Qed.

(** X7: a call writes inside the block only.  Whatever the note, the state
    and the channel count, every buffer keeps its length and every sample at
    an index of [inNumFrames] or more is left as it was. *)
Theorem Render_writes_inside_block (g : Globals) (env : Env)
    (inNumFrames : Z) (s : RS) :
  map (@length fnum) (mBuffers (rs_abl (snd (Render g env inNumFrames s))))
  = map (@length fnum) (mBuffers (rs_abl s))
  /\ map (skipn (Z.to_nat inNumFrames))
         (mBuffers (rs_abl (snd (Render g env inNumFrames s))))
     = map (skipn (Z.to_nat inNumFrames)) (mBuffers (rs_abl s)).
Proof.
  apply (Render_bufs_inv
           (fun b =>
              map (@length fnum) b = map (@length fnum) (mBuffers (rs_abl s))
              /\ map (skipn (Z.to_nat inNumFrames)) b =
                 map (skipn (Z.to_nat inNumFrames)) (mBuffers (rs_abl s))));
    [| split; reflexivity].
  intros f out b Hf [E1 E2]. unfold emit_bufs.
  assert (Hlt : (Z.to_nat f < Z.to_nat inNumFrames)%nat) by lia.
  destruct (right_of (rs_abl s)) as [r |].
  - destruct (add_chan_shape (Z.to_nat inNumFrames) r (Z.to_nat f) out
                (add_chan 0 (Z.to_nat f) out b) Hlt) as [A1 A2].
    destruct (add_chan_shape (Z.to_nat inNumFrames) 0 (Z.to_nat f) out b Hlt)
      as [B1 B2].
    rewrite A1, A2, B1, B2. split; assumption.
  - destruct (add_chan_shape (Z.to_nat inNumFrames) 0 (Z.to_nat f) out b Hlt)
      as [B1 B2].
    rewrite B1, B2. split; assumption.
Qed.

(** X8: the two channels.  With two channels, buffers that hold the same
    samples before the call hold the same samples after it: both get the
    same additions.  With any other channel count only the first buffer is
    written. *)
Theorem Render_channels (g : Globals) (env : Env) (inNumFrames : Z) (s : RS) :
  (int_of_UInt32 (mNumberBuffers (rs_abl s)) = 2 ->
   forall L, mBuffers (rs_abl s) = [L; L] ->
   exists L', mBuffers (rs_abl (snd (Render g env inNumFrames s))) = [L'; L'])
  /\ (int_of_UInt32 (mNumberBuffers (rs_abl s)) <> 2 ->
      tl (mBuffers (rs_abl (snd (Render g env inNumFrames s))))
      = tl (mBuffers (rs_abl s))).
Proof.
  split.
  - intros H2 L HL.
    apply (Render_bufs_inv (fun b => exists L', b = [L'; L'])).
    + intros f out b _ [L' ->]. unfold right_of, emit_bufs. rewrite H2.
      cbn. eexists. reflexivity.
    + exists L. exact HL.
  - intro H2.
    apply (Render_bufs_inv
             (fun b => tl b = tl (mBuffers (rs_abl s)))); [| reflexivity].
    intros f out b _ Hb. unfold right_of, emit_bufs.
    destruct (Z.eqb_spec (int_of_UInt32 (mNumberBuffers (rs_abl s))) 2);
      [contradiction |].
    now rewrite add_chan_tail.
Qed.

(** X8 on a stereo bus of two frames. *)
Lemma Render_channels_witness :
  exists L',
    mBuffers (rs_abl (snd (Render fed_globals test_env 2
       (mkRS (test_note kNoteState_Attacked 0 0)
             (mkABL 2 [[Fin 0; Fin 0]; [Fin 0; Fin 0]]) []))))
    = [L'; L'].
Proof.
  apply (proj1 (Render_channels fed_globals test_env 2
           (mkRS (test_note kNoteState_Attacked 0 0)
                 (mkABL 2 [[Fin 0; Fin 0]; [Fin 0; Fin 0]]) []))
           eq_refl [Fin 0; Fin 0] eq_refl).
Defined.

(** X9: an empty block is no call at all.  With [inNumFrames] = 0 the note,
    the buffers and the record of ended notes are left as they were, in
    every state; the status is -1 or [noErr] as for any block. *)
Theorem Render_empty_block (g : Globals) (env : Env) (s : RS) :
  snd (Render g env 0 s) = s
  /\ fst (Render g env 0 s) =
     Ok (if int_of_UInt32 (mNumberBuffers (rs_abl s)) >? 2
         then -1 else noErr).
Proof.
  destruct (int_of_UInt32 (mNumberBuffers (rs_abl s)) >? 2) eqn:H.
  - rewrite Render_rejects by exact H. split; reflexivity.
  - pose proof (Render_bufs g env 0 s H) as B.
    destruct (Render_run g env 0 s H) as [b E]. rewrite E in *.
    cbn [snd fst rs_abl mBuffers] in *. subst b. split; [| reflexivity].
    destruct s as [n [nb bs] e]. unfold render_bufs, reported.
    cbn [rs_note rs_abl rs_ended mNumberBuffers mBuffers Z.to_nat Nat.iter
         nat_rect block_bufs end_frames].
    destruct (state n); cbn; rewrite app_nil_r; reflexivity.
Qed.

(** ** The calls of [NoteEnded] *)

Lemma end_frames_range (step : TestNote -> TestNote) (count : nat) :
  forall (frame : Z) (n : TestNote),
    end_frames step count frame no_endFrame n = no_endFrame
    \/ frame <= end_frames step count frame no_endFrame n
       < frame + Z.of_nat count.
Proof.
  induction count as [| k IH]; intros frame n; [left; reflexivity |].
  cbn [end_frames]. unfold next_endFrame.
  destruct (fgt (amp n) (Fin 0)).
  - destruct (IH (frame + 1) (step n)) as [E | E]; [left; exact E |].
    right. lia.
  - rewrite Z.eqb_refl.
    destruct (Z.eq_dec frame no_endFrame) as [F | F].
    + subst frame.
      destruct (IH (no_endFrame + 1) (step n)) as [E | E]; [left; exact E |].
      right. lia.
    + rewrite end_frames_keeps by exact F. right. lia.
Qed.

(** X11: a call makes at most one call of [NoteEnded], with a frame inside
    the block, and none at all unless the note is released or
    fast-released. *)
Theorem Render_reports_once (g : Globals) (env : Env) (inNumFrames : Z)
    (s : RS) :
  exists l,
    rs_ended (snd (Render g env inNumFrames s)) = rs_ended s ++ l
    /\ (l = [] \/ exists e, l = [e] /\ 0 <= e < inNumFrames)
    /\ (if release_like (state (rs_note s)) then True else l = []).
Proof.
  destruct (int_of_UInt32 (mNumberBuffers (rs_abl s)) >? 2) eqn:H.
  - rewrite Render_rejects by exact H. exists []. rewrite app_nil_r.
    repeat split; auto. destruct (release_like _); auto.
  - destruct (Render_run g env inNumFrames s H) as [b ->].
    cbn [snd rs_ended]. eexists. split; [reflexivity |].
    unfold reported. split.
    + destruct (state (rs_note s)); auto;
        match goal with |- context [end_frames ?st ?c 0 no_endFrame ?n] =>
          destruct (end_frames_range st c 0 n) as [E | E];
          destruct (Z.eqb_spec (end_frames st c 0 no_endFrame n) no_endFrame)
        end; auto; try contradiction;
        right; eexists; (split; [reflexivity | lia]).
    + destruct (state (rs_note s)); cbn; auto.
Qed.

(** ** The amplitude a released note is left with *)

(** X12: the amplitude of a released note after a block, for an accepted
    channel count.  If frame [k] is the first that finds the amplitude no
    longer positive, a block of [inNumFrames] frames leaves the amplitude
    after min (inNumFrames, k) subtractions of
    maxamp / (sampleRate * releaseTime), each rounded to [double]: it falls
    for [k] frames and then stays where the last subtraction has left it,
    which is not above 0 and is not brought back to 0. *)
Theorem released_amplitude_after_block (g : Globals) (env : Env)
    (inNumFrames : Z) (s : RS) (k : nat) :
  state (rs_note s) = kNoteState_Released ->
  (int_of_UInt32 (mNumberBuffers (rs_abl s)) >? 2) = false ->
  (forall j, (j < k)%nat ->
     fgt (after_decrements (release_decrement env (rs_note s)) j
            (amp (rs_note s))) (Fin 0) = true) ->
  fgt (after_decrements (release_decrement env (rs_note s)) k
         (amp (rs_note s))) (Fin 0) = false ->
  amp (rs_note (snd (Render_rounded g env inNumFrames s))) =
    after_decrements (release_decrement env (rs_note s))
      (Nat.min (Z.to_nat inNumFrames) k) (amp (rs_note s))
  /\ (Z.of_nat k <= inNumFrames ->
      amp (rs_note (snd (Render_rounded g env inNumFrames s))) =
        after_decrements (release_decrement env (rs_note s)) k
          (amp (rs_note s))).
Proof.
  intros St Hc Hpos Hend.
  destruct (Render_rounded_released g env inNumFrames s St Hc)
    as [n' [b [-> A]]].
  cbn [snd rs_note]. rewrite A. unfold after_decrements in *.
  rewrite (iter_while_positive _ k) by assumption.
  split; [reflexivity |].
  intro Hk. now replace (Nat.min (Z.to_nat inNumFrames) k) with k by lia.
Qed.

(** X12 at 10 Hz with a release time of 1 s: the note of amplitude 1 is
    left, after a block of 16 frames, with the amplitude that eleven
    subtractions of the [double] next to 0.1 give, which is negative. *)
Lemma released_amplitude_after_block_witness :
  amp (rs_note (snd (Render_rounded fed_globals slow_env 16
                       (released_block 16)))) =
    after_decrements
      (release_decrement slow_env (rs_note (released_block 16))) 11 (Fin 1)
  /\ flt (after_decrements
            (release_decrement slow_env (rs_note (released_block 16))) 11
            (Fin 1)) (Fin 0) = true.
Proof.
  split; [| vm_compute; reflexivity].
  refine (proj2 (released_amplitude_after_block fed_globals slow_env 16
                   (released_block 16) 11 eq_refl eq_refl _ _) _).
  - intros j Hj.
    do 11 (destruct j as [| j]; [vm_compute; reflexivity |]).
    lia.
  - vm_compute. reflexivity.
  - vm_compute. congruence.
Defined.

(** ** The end frame of a fast-released note *)

(** X14: a fast-released note rendered with an accepted channel count.
    Every frame that finds the amplitude positive adds [fast_dn_slope] to
    it, the sum rounded to [double].  If frame [k] of the block is the
    first that finds the amplitude no longer positive, the call makes one
    call of [NoteEnded], with [k]; if every frame of the block finds it
    positive, the call makes none. *)
Theorem fast_released_first_spent_frame (g : Globals) (env : Env)
    (inNumFrames : Z) (s : RS) :
  state (rs_note s) = kNoteState_FastReleased ->
  (int_of_UInt32 (mNumberBuffers (rs_abl s)) >? 2) = false ->
  inNumFrames < 2 ^ 32 ->
  (forall k : nat,
     Z.of_nat k < inNumFrames ->
     (forall j, (j < k)%nat ->
        fgt (after_additions (fast_dn_slope (rs_note s)) j
               (amp (rs_note s))) (Fin 0) = true) ->
     fgt (after_additions (fast_dn_slope (rs_note s)) k
            (amp (rs_note s))) (Fin 0) = false ->
     rs_ended (snd (Render_rounded g env inNumFrames s)) =
       rs_ended s ++ [Z.of_nat k])
  /\ ((forall j : nat,
         Z.of_nat j < inNumFrames ->
         fgt (after_additions (fast_dn_slope (rs_note s)) j
                (amp (rs_note s))) (Fin 0) = true) ->
      rs_ended (snd (Render_rounded g env inNumFrames s)) = rs_ended s).
Proof.
  intros St Hc HN.
  destruct (Render_rounded_fast_released g env inNumFrames s St Hc)
    as [n' [b [-> _]]].
  cbn [snd rs_ended]. unfold after_additions. split.
  - intros k Hk Hpos Hend. f_equal.
    now apply first_spent_frame_reported.
  - intro Hpos. rewrite no_spent_frame_reported by exact Hpos.
    apply app_nil_r.
Qed.

(** X14 on a stolen note of amplitude 1 whose slope is the [double] next to
    -0.1: ten additions leave a positive amplitude, and the note ends at
    frame 11 of a block of 16. *)
Lemma fast_released_first_spent_frame_witness :
  rs_ended (snd (Render_rounded fed_globals test_env 16
                   (mkRS stolen_note (mono 16) [])))
  = [11].
Proof.
  refine (proj1 (fast_released_first_spent_frame fed_globals test_env 16
                   (mkRS stolen_note (mono 16) []) eq_refl eq_refl eq_refl)
            11%nat eq_refl _ _).
  - intros j Hj.
    do 11 (destruct j as [| j]; [vm_compute; reflexivity |]).
    lia.
  - vm_compute. reflexivity.
Defined.

(** ** The attack *)

Lemma attack_amp_fin (env : Env) (m sr att x : Q) (n : TestNote) :
  SampleRate env = Fin sr -> globalAmpAttack env = Fin att ->
  (0 < sr)%Q -> (0 < att)%Q ->
  maxamp n = Fin m -> amp n = Fin x ->
  attack_amp env n =
  if Qltb x m
  then if Qltb m (x + m / (sr * att)) then Fin m
       else Fin (x + m / (sr * att))
  else if Qltb m x then Fin m else Fin x.
Proof.
  intros Hsr Hatt Psr Patt Hm Hx. unfold attack_amp.
  rewrite Hx, Hm, Hsr, Hatt. cbn [flt fgt fmul].
  rewrite fdiv_fin_pos by now apply Qmult_lt_0_compat.
  destruct (Qltb x m); reflexivity.
Qed.

Lemma attack_iter_amp (env : Env) (m sr att a0 : Q) (n : TestNote) (k : nat) :
  SampleRate env = Fin sr -> globalAmpAttack env = Fin att ->
  (0 < sr)%Q -> (0 < att)%Q -> (0 <= m)%Q -> (a0 <= m)%Q ->
  maxamp n = Fin m -> amp n = Fin a0 ->
  maxamp (Nat.iter k (attack_note env) n) = Fin m
  /\ exists x,
       amp (Nat.iter k (attack_note env) n) = Fin x
       /\ (x == Qmin m (a0 + inject_Z (Z.of_nat k) * (m / (sr * att))))%Q.
Proof.
  intros Hsr Hatt Psr Patt Pm Pa Hm Ha.
  assert (D : (0 <= m / (sr * att))%Q)
    by (apply Qdiv_nonneg; [exact Pm | now apply Qmult_lt_0_compat]).
  induction k as [| k [IH1 [x [IH2 IH3]]]].
  - split; [exact Hm |]. exists a0. split; [exact Ha |].
    change (inject_Z (Z.of_nat 0)) with 0%Q.
    rewrite Q.min_r by lra. ring.
  - rewrite Nat.iter_succ. split; [exact IH1 |].
    cbn [attack_note amp].
    rewrite (attack_amp_fin env m sr att x _ Hsr Hatt Psr Patt IH1 IH2).
    assert (I : (inject_Z (Z.of_nat (S k)) == inject_Z (Z.of_nat k) + 1)%Q).
    { rewrite Nat2Z.inj_succ. unfold Z.succ. rewrite inject_Z_plus.
      reflexivity. }
    assert (K0 : (0 <= inject_Z (Z.of_nat k))%Q)
      by (change 0%Q with (inject_Z 0); rewrite <- Zle_Qle; lia).
    destruct (Qltb_cases x m) as [[B1 C1] | [B1 C1]]; rewrite B1;
      [destruct (Qltb_cases m (x + m / (sr * att)))
         as [[B2 C2] | [B2 C2]]; rewrite B2
      | destruct (Qltb_cases m x) as [[B2 C2] | [B2 C2]]; rewrite B2];
      eexists; (split; [reflexivity |]);
      destruct (Q.min_spec m (a0 + inject_Z (Z.of_nat k) * (m / (sr * att))))
        as [[L1 E1] | [L1 E1]];
      rewrite E1 in IH3;
      destruct (Q.min_spec m
                  (a0 + inject_Z (Z.of_nat (S k)) * (m / (sr * att))))
        as [[L2 E2] | [L2 E2]];
      rewrite E2; rewrite I in L2; rewrite ?I; try lra; nra.
Qed.

(** X15: the attack ramp.  For a positive attack time, a note held for a
    block of [inNumFrames] frames that starts at amplitude [a0 <= maxamp]
    ends it at min (maxamp, a0 + inNumFrames * inc), where
    inc = maxamp / (SampleRate * attack time): a straight rise that stops at
    the maximum amplitude and stays there. *)
Theorem attack_amplitude_after_block (g : Globals) (env : Env)
    (inNumFrames : Z) (s : RS) (a0 m sr att : Q) :
  attack_like (state (rs_note s)) = true ->
  (int_of_UInt32 (mNumberBuffers (rs_abl s)) >? 2) = false ->
  amp (rs_note s) = Fin a0 -> maxamp (rs_note s) = Fin m ->
  SampleRate env = Fin sr -> globalAmpAttack env = Fin att ->
  (0 < sr)%Q -> (0 < att)%Q -> (0 <= m)%Q -> (a0 <= m)%Q ->
  0 <= inNumFrames ->
  feq (amp (rs_note (snd (Render g env inNumFrames s))))
      (Fin (Qmin m (a0 + inject_Z inNumFrames * (m / (sr * att))))).
Proof.
  intros St Hc Ha Hm Hsr Hatt Psr Patt Pm Pa HN.
  destruct (Render_run g env inNumFrames s Hc) as [b ->].
  cbn [snd rs_note].
  assert (E : frame_step env (state (rs_note s)) = attack_note env)
    by (destruct (state (rs_note s)); try discriminate; reflexivity).
  rewrite E.
  destruct (attack_iter_amp env m sr att a0 (rs_note s)
              (Z.to_nat inNumFrames) Hsr Hatt Psr Patt Pm Pa Hm Ha)
    as [_ [x [Hx1 Hx2]]].
  rewrite Hx1. cbn [feq]. rewrite Hx2, Z2Nat.id by exact HN. reflexivity.
Qed.

(** X15 on a note attacked from silence: 44100 Hz and an attack time of
    0.001 s give 44.1 frames to the maximum; after 50 the amplitude is 1. *)
Lemma attack_amplitude_after_block_witness :
  feq (amp (rs_note (snd (Render fed_globals test_env 50
              (mkRS (test_note kNoteState_Attacked 0 0) (mono 50) [])))))
      (Fin (Qmin 1 (0 + inject_Z 50 * (1 / (44100 * (1 # 1000)))))).
Proof.
  refine (attack_amplitude_after_block fed_globals test_env 50
            (mkRS (test_note kNoteState_Attacked 0 0) (mono 50) [])
            0 1 44100 (1 # 1000)
            eq_refl eq_refl eq_refl eq_refl eq_refl eq_refl
            eq_refl eq_refl _ _ _).
  - vm_compute. congruence.
  - vm_compute. congruence.
  - lia.
Defined.

(** ** Attack and release times of zero *)

Lemma Qeq_bool_zero_product (sr t : Q) :
  (t == 0)%Q -> Qeq_bool (sr * t) 0 = true.
Proof. intro H. apply Qeq_eq_bool. rewrite H. ring. Qed.

Lemma attack_amp_zero_time (env : Env) (m sr att x : Q) (n : TestNote) :
  SampleRate env = Fin sr -> globalAmpAttack env = Fin att ->
  (att == 0)%Q -> (0 < m)%Q -> maxamp n = Fin m -> amp n = Fin x ->
  exists y, attack_amp env n = Fin y /\ (y == m)%Q.
Proof.
  intros Hsr Hatt Z0 Pm Hm Hx. unfold attack_amp.
  rewrite Hx, Hm, Hsr, Hatt. cbn [flt fgt fmul fdiv].
  rewrite (Qeq_bool_zero_product sr att Z0), (Qsign_pos m Pm).
  destruct (Qltb_cases x m) as [[B1 C1] | [B1 C1]]; rewrite B1.
  - cbn. exists m. split; reflexivity.
  - cbn [flt].
    destruct (Qltb_cases m x) as [[B2 C2] | [B2 C2]]; rewrite B2;
      eexists; (split; [reflexivity | lra]).
Qed.

(** X16: an attack time of 0, the value the constructor sets, is no
    attack: whatever finite amplitude the note starts with, the first frame
    of a held note takes it to the maximum amplitude, where it stays. *)
Theorem attack_with_zero_time (g : Globals) (env : Env) (inNumFrames : Z)
    (s : RS) (a0 m sr att : Q) :
  attack_like (state (rs_note s)) = true ->
  (int_of_UInt32 (mNumberBuffers (rs_abl s)) >? 2) = false ->
  amp (rs_note s) = Fin a0 -> maxamp (rs_note s) = Fin m ->
  SampleRate env = Fin sr -> globalAmpAttack env = Fin att ->
  (att == 0)%Q -> (0 < m)%Q -> 1 <= inNumFrames ->
  feq (amp (rs_note (snd (Render g env inNumFrames s)))) (Fin m).
Proof.
  intros St Hc Ha Hm Hsr Hatt Z0 Pm HN.
  destruct (Render_run g env inNumFrames s Hc) as [b ->].
  cbn [snd rs_note].
  assert (E : frame_step env (state (rs_note s)) = attack_note env)
    by (destruct (state (rs_note s)); try discriminate; reflexivity).
  rewrite E.
  destruct (Z.to_nat inNumFrames) as [| k] eqn:K; [lia |].
  assert (I : maxamp (Nat.iter k (attack_note env) (rs_note s)) = Fin m
              /\ exists x,
                   amp (Nat.iter k (attack_note env) (rs_note s)) = Fin x).
  { clear K. induction k as [| k [I1 [x I2]]]; [eauto |].
    rewrite Nat.iter_succ. split; [exact I1 |].
    destruct (attack_amp_zero_time env m sr att x _ Hsr Hatt Z0 Pm I1 I2)
      as [y [Hy _]].
    exists y. exact Hy. }
  destruct I as [I1 [x I2]]. rewrite Nat.iter_succ.
  destruct (attack_amp_zero_time env m sr att x _ Hsr Hatt Z0 Pm I1 I2)
    as [y [Hy1 Hy2]].
  cbn [attack_note amp]. rewrite Hy1. exact Hy2.
Qed.

(** X16 with the parameters of the constructor: one frame from silence. *)
Lemma attack_with_zero_time_witness :
  feq (amp (rs_note (snd (Render fed_globals constructor_env 1
              (mkRS (test_note kNoteState_Attacked 0 0) (mono 1) [])))))
      (Fin 1).
Proof.
  refine (attack_with_zero_time fed_globals constructor_env 1
            (mkRS (test_note kNoteState_Attacked 0 0) (mono 1) [])
            0 1 44100 0 eq_refl eq_refl eq_refl eq_refl eq_refl eq_refl
            _ eq_refl _).
  - reflexivity.
  - lia.
Defined.

Lemma fmul_not_finite_l (x y : fnum) :
  is_finite x = false -> is_finite (fmul x y) = false.
Proof.
  destruct x as [a | | |]; try discriminate; intros _;
    destruct y as [b | | |]; try reflexivity; cbn;
    destruct (Qsign b); reflexivity.
Qed.

Lemma fmul_not_finite_r (x y : fnum) :
  is_finite y = false -> is_finite (fmul x y) = false.
Proof.
  destruct y as [b | | |]; try discriminate; intros _;
    destruct x as [a | | |]; try reflexivity; cbn;
    destruct (Qsign a); reflexivity.
Qed.

Lemma fadd_not_finite_r (x y : fnum) :
  is_finite y = false -> is_finite (fadd x y) = false.
Proof.
  destruct y as [b | | |]; try discriminate; intros _;
    destruct x as [a | | |]; reflexivity.
Qed.

Lemma release_amp_zero_time (env : Env) (m sr rt a : Q) (n : TestNote) :
  SampleRate env = Fin sr -> globalAmpRelease env = Fin rt ->
  (rt == 0)%Q -> (0 < m)%Q -> (0 < a)%Q ->
  maxamp n = Fin m -> amp n = Fin a ->
  release_amp env n = NInf.
Proof.
  intros Hsr Hrt Z0 Pm Pa Hm Ha. unfold release_amp.
  rewrite Ha, Hm, Hsr, Hrt. cbn [flt fgt fmul fdiv].
  rewrite (proj2 (Qltb_true 0 a) Pa).
  rewrite (Qeq_bool_zero_product sr rt Z0), (Qsign_pos m Pm). reflexivity.
Qed.

Lemma release_amp_stuck (env : Env) (n : TestNote) :
  amp n = NInf -> release_amp env n = NInf.
Proof. intro H. unfold release_amp. rewrite H. reflexivity. Qed.

Lemma release_iter_stuck (env : Env) (k : nat) (n : TestNote) :
  amp n = NInf -> amp (Nat.iter k (release_note env) n) = NInf.
Proof.
  intro H. induction k as [| k IH]; [exact H |].
  rewrite Nat.iter_succ. cbn [release_note amp].
  now apply release_amp_stuck.
Qed.

Lemma first_sample_kept (right : option nat) (f : Z) (out v : fnum)
    (b : list (list fnum)) :
  1 <= f -> (right = Some 1%nat \/ right = None) ->
  (exists rest others, b = (v :: rest) :: others) ->
  exists rest others, emit_bufs right f out b = (v :: rest) :: others.
Proof.
  intros Hf Hr [rest [others ->]]. unfold emit_bufs.
  destruct (Z.to_nat f) as [| j] eqn:J; [lia |].
  destruct Hr as [-> | ->]; cbn; eauto.
Qed.

(** X17: a release time of 0, the value the constructor sets, breaks the
    release.  The first frame of a released note with a positive amplitude
    subtracts maxamp / 0: the amplitude is minus infinity from then on, the
    sample added at frame 0 is not a finite number, and the end of the note
    is reported at frame 1. *)
Theorem released_with_zero_time (g : Globals) (env : Env) (inNumFrames : Z)
    (s : RS) (a0 m sr rt : Q) (v : fnum) (rest : list fnum)
    (others : list (list fnum)) :
  state (rs_note s) = kNoteState_Released ->
  (int_of_UInt32 (mNumberBuffers (rs_abl s)) >? 2) = false ->
  amp (rs_note s) = Fin a0 -> maxamp (rs_note s) = Fin m ->
  SampleRate env = Fin sr -> globalAmpRelease env = Fin rt ->
  (rt == 0)%Q -> (0 < m)%Q -> (0 < a0)%Q ->
  mBuffers (rs_abl s) = (v :: rest) :: others ->
  2 <= inNumFrames ->
  amp (rs_note (snd (Render g env inNumFrames s))) = NInf
  /\ rs_ended (snd (Render g env inNumFrames s)) = rs_ended s ++ [1]
  /\ exists v' rest' others',
       mBuffers (rs_abl (snd (Render g env inNumFrames s)))
       = (v' :: rest') :: others'
       /\ is_finite v' = false.
Proof.
  intros St Hc Ha Hm Hsr Hrt Z0 Pm Pa Hb HN.
  pose proof (Render_bufs g env inNumFrames s Hc) as B.
  destruct (Render_run g env inNumFrames s Hc) as [b E]. rewrite E in *.
  cbn [snd rs_note rs_ended rs_abl mBuffers] in *. subst b.
  rewrite St. cbn [frame_step]. unfold render_bufs. rewrite St.
  destruct (Z.to_nat inNumFrames) as [| [| k]] eqn:K; try lia.
  pose proof (release_amp_zero_time env m sr rt a0 (rs_note s)
                Hsr Hrt Z0 Pm Pa Hm Ha) as R1.
  split; [| split].
  - rewrite Nat.iter_succ_r. apply release_iter_stuck. exact R1.
  - assert (EF : end_frames (release_note env) (S (S k)) 0 no_endFrame
                   (rs_note s) = 1).
    { cbn [end_frames]. unfold next_endFrame.
      rewrite Ha. cbn [release_note amp]. rewrite R1. cbn [fgt flt].
      rewrite (proj2 (Qltb_true 0 a0) Pa), Z.eqb_refl.
      rewrite end_frames_keeps by (unfold no_endFrame; lia). reflexivity. }
    unfold reported. cbn [frame_step]. rewrite EF. reflexivity.
  - set (out0 := frame_out g env (release_note env) (rs_note s)).
    assert (F : is_finite out0 = false).
    { unfold out0, frame_out, out_sample. cbn [release_note amp].
      rewrite R1. apply fmul_not_finite_l, fmul_not_finite_r. reflexivity. }
    cbn [block_bufs]. fold out0.
    assert (P : exists rest' others',
               block_bufs g env (right_of (rs_abl s)) (release_note env)
                 (S k) (0 + 1) (release_note env (rs_note s))
                 (emit_bufs (right_of (rs_abl s)) 0 out0
                    (mBuffers (rs_abl s)))
               = (fadd v out0 :: rest') :: others').
    { apply (block_bufs_inv
               (fun b => exists rest' others',
                    b = (fadd v out0 :: rest') :: others')).
      - intros f out b' Hf Hb'.
        apply first_sample_kept; [lia | | exact Hb'].
        unfold right_of. destruct (_ =? 2); auto.
      - rewrite Hb. unfold emit_bufs, right_of.
        destruct (_ =? 2); cbn; [destruct others |]; cbn; eauto. }
    destruct P as [rest' [others' P]].
    exists (fadd v out0), rest', others'. split; [exact P |].
    now apply fadd_not_finite_r.
Qed.

(** X17 with the parameters of the constructor: a released note of
    amplitude 1 rendered for two frames. *)
Lemma released_with_zero_time_witness :
  amp (rs_note (snd (Render fed_globals constructor_env 2
         (mkRS (test_note kNoteState_Released 0 1) (mono 2) []))))
  = NInf
  /\ rs_ended (snd (Render fed_globals constructor_env 2
                      (mkRS (test_note kNoteState_Released 0 1) (mono 2) [])))
     = [] ++ [1]
  /\ exists v' rest' others',
       mBuffers (rs_abl (snd (Render fed_globals constructor_env 2
                   (mkRS (test_note kNoteState_Released 0 1) (mono 2) []))))
       = (v' :: rest') :: others'
       /\ is_finite v' = false.
Proof.
  refine (released_with_zero_time fed_globals constructor_env 2
            (mkRS (test_note kNoteState_Released 0 1) (mono 2) [])
            1 1 44100 0 (Fin 0) [Fin 0] []
            eq_refl eq_refl eq_refl eq_refl eq_refl eq_refl
            _ eq_refl eq_refl eq_refl _).
  - reflexivity.
  - lia.
Defined.

(** ** The phase and the index of the read *)

Lemma twopi_q_pos : (0 < twopi_q)%Q.
Proof. reflexivity. Qed.

Lemma twopi_fin : twopi = Fin twopi_q.
Proof. reflexivity. Qed.

Lemma read_index_fin (p : Q) :
  read_index (Fin p) = to_int (Fin (p / twopi_q * inject_Z buf_size)).
Proof.
  unfold read_index. rewrite twopi_fin.
  rewrite fdiv_fin_pos by exact twopi_q_pos. reflexivity.
Qed.

Lemma Qquot_floor (q : Q) :
  (0 <= q)%Q -> Z.quot (Qnum q) (Zpos (Qden q)) = Qfloor q.
Proof.
  intro H. destruct q as [a b]. cbn [Qnum Qden Qfloor].
  apply Z.quot_div_nonneg; [| reflexivity].
  unfold Qle in H. cbn in H. lia.
Qed.

Lemma to_int_floor (q : Q) :
  (0 <= q)%Q -> Qfloor q <= INT_MAX -> to_int (Fin q) = Qfloor q.
Proof.
  intros H M. unfold to_int. cbv zeta. rewrite (Qquot_floor q H).
  assert (F : 0 <= Qfloor q).
  { change 0 with (Qfloor 0). now apply Qfloor_resp_le. }
  destruct (Z.leb_spec INT_MIN (Qfloor q)) as [A | A];
    [| unfold INT_MIN in A; lia].
  destruct (Z.leb_spec (Qfloor q) INT_MAX) as [B | B]; [reflexivity | lia].
Qed.

Lemma read_index_in_cycle (p : Q) :
  (0 <= p <= twopi_q)%Q -> 0 <= read_index (Fin p) <= buf_size.
Proof.
  intros [P0 P1]. rewrite read_index_fin.
  pose proof twopi_q_pos as T.
  assert (R0 : (0 <= p / twopi_q)%Q) by now apply Qdiv_nonneg.
  assert (R1 : (p / twopi_q <= 1)%Q)
    by (apply Qle_shift_div_r; [exact T | lra]).
  assert (I : inject_Z buf_size = 128%Q) by reflexivity.
  generalize dependent (p / twopi_q)%Q. intros r R0 R1.
  assert (Q0 : (0 <= r * inject_Z buf_size)%Q) by (rewrite I; lra).
  assert (Q1 : (r * inject_Z buf_size <= inject_Z buf_size)%Q)
    by (rewrite I; lra).
  apply Qfloor_resp_le in Q1. rewrite Qfloor_Z in Q1.
  assert (F : 0 <= Qfloor (r * inject_Z buf_size)).
  { change 0 with (Qfloor 0). now apply Qfloor_resp_le. }
  rewrite to_int_floor; [lia | exact Q0 |].
  unfold INT_MAX. unfold buf_size in Q1 at 2. lia.
Qed.

Lemma wrap_phase_range (env : Env) (f p : Q) :
  freq env = Fin f -> (0 <= f <= twopi_q)%Q -> (0 <= p <= twopi_q)%Q ->
  exists p', wrap_phase env (Fin p) = Fin p' /\ (0 <= p' <= twopi_q)%Q.
Proof.
  intros Hf Pf Pp. unfold wrap_phase. rewrite Hf, twopi_fin.
  cbn [fadd fgt flt].
  destruct (Qltb_cases twopi_q (p + f)) as [[B C] | [B C]]; rewrite B;
    cbn [fsub fadd fopp]; eexists; (split; [reflexivity | lra]).
Qed.

(** X18: a held note stays inside one cycle.  If the phase lies between 0
    and [twopi] and the increment per frame, Frequency * (twopi /
    SampleRate), does too, the phase lies between 0 and [twopi] after the
    block, and the index the next frame reads at lies between 0 and 128,
    the capacity of the ring buffer. *)
Theorem held_phase_in_cycle (g : Globals) (env : Env) (inNumFrames : Z)
    (s : RS) (p f : Q) :
  attack_like (state (rs_note s)) = true ->
  (int_of_UInt32 (mNumberBuffers (rs_abl s)) >? 2) = false ->
  phase (rs_note s) = Fin p ->
  fmul (Frequency env) (fdiv twopi (SampleRate env)) = Fin f ->
  (0 <= p <= twopi_q)%Q -> (0 <= f <= twopi_q)%Q ->
  exists p',
    phase (rs_note (snd (Render g env inNumFrames s))) = Fin p'
    /\ (0 <= p' <= twopi_q)%Q
    /\ 0 <= read_index (Fin p') <= buf_size.
Proof.
  intros St Hc Hp Hf Pp Pf.
  destruct (Render_run g env inNumFrames s Hc) as [b ->].
  cbn [snd rs_note].
  assert (E : frame_step env (state (rs_note s)) = attack_note env)
    by (destruct (state (rs_note s)); try discriminate; reflexivity).
  rewrite E, phase_iter_attack, Hp.
  assert (I : exists p', Nat.iter (Z.to_nat inNumFrames) (wrap_phase env)
                           (Fin p) = Fin p' /\ (0 <= p' <= twopi_q)%Q).
  { generalize (Z.to_nat inNumFrames). intro k.
    induction k as [| k [x [I1 I2]]];
      [exists p; split; [reflexivity | exact Pp] |].
    rewrite Nat.iter_succ, I1. now apply (wrap_phase_range env f). }
  destruct I as [p' [I1 I2]]. exists p'.
  split; [exact I1 |]. split; [exact I2 |].
  now apply read_index_in_cycle.
Qed.

(** X18 at 440 Hz and 44100 Hz from phase 0, over 4096 frames. *)
Lemma held_phase_in_cycle_witness :
  exists p',
    phase (rs_note (snd (Render fed_globals test_env 4096
             (mkRS (test_note kNoteState_Attacked 0 0) (mono 4096) []))))
    = Fin p'
    /\ (0 <= p' <= twopi_q)%Q
    /\ 0 <= read_index (Fin p') <= buf_size.
Proof.
  refine (held_phase_in_cycle fed_globals test_env 4096
            (mkRS (test_note kNoteState_Attacked 0 0) (mono 4096) [])
            0 (440 * (twopi_q / 44100)) eq_refl eq_refl eq_refl eq_refl _ _);
    vm_compute; split; congruence.
Defined.

Lemma read_index_past_cycle (p : Q) :
  (twopi_q <= p)%Q -> read_index (Fin p) < 0 \/ buf_size <= read_index (Fin p).
Proof.
  intro P. rewrite read_index_fin. pose proof twopi_q_pos as T.
  assert (R1 : (1 <= p / twopi_q)%Q)
    by (apply Qle_shift_div_l; [exact T | lra]).
  assert (I : inject_Z buf_size = 128%Q) by reflexivity.
  generalize dependent (p / twopi_q)%Q. intros r R1.
  assert (Q0 : (0 <= r * inject_Z buf_size)%Q) by (rewrite I; lra).
  assert (Q1 : (inject_Z buf_size <= r * inject_Z buf_size)%Q)
    by (rewrite I; lra).
  apply Qfloor_resp_le in Q1. rewrite Qfloor_Z in Q1.
  unfold to_int. cbv zeta. rewrite (Qquot_floor _ Q0).
  destruct ((INT_MIN <=? Qfloor (r * inject_Z buf_size))
            && (Qfloor (r * inject_Z buf_size) <=? INT_MAX)).
  - right. exact Q1.
  - left. reflexivity.
Qed.

Lemma sample_value_outside (cb : circular_buffer) (i : Z) :
  (length cb <= Z.to_nat buf_size)%nat -> (i < 0 \/ buf_size <= i) ->
  sample_value cb i = Fin 0.
Proof.
  intros L H. unfold sample_value, in_filled_range.
  change (Z.to_nat buf_size) with 128%nat in L. unfold buf_size in H.
  destruct (Z.leb_spec 0 i); [| reflexivity].
  destruct (Z.ltb_spec i (Z.of_nat (length cb))); [lia | reflexivity].
Qed.

Lemma block_bufs_past_cycle (g g' : Globals) (env : Env) (right : option nat)
    (step : TestNote -> TestNote) (f : Q) :
  moving_average g = moving_average g' ->
  (length (c_buf g) <= Z.to_nat buf_size)%nat ->
  (length (c_buf g') <= Z.to_nat buf_size)%nat ->
  (0 <= f)%Q ->
  (forall n p, phase n = Fin p -> phase (step n) = Fin (p + f)) ->
  forall (count : nat) (frame : Z) (n : TestNote) (p : Q)
         (bufs : list (list fnum)),
    phase n = Fin p -> (twopi_q <= p)%Q ->
    block_bufs g env right step count frame n bufs =
    block_bufs g' env right step count frame n bufs.
Proof.
  intros Hma L L' Pf Hstep count.
  induction count as [| k IH]; intros frame n p bufs Hp Pp; [reflexivity |].
  cbn [block_bufs].
  assert (E : frame_out g env step n = frame_out g' env step n).
  { unfold frame_out, out_sample. rewrite Hma, Hp.
    fold (read_index (Fin p)).
    rewrite !sample_value_outside;
      auto using read_index_past_cycle. }
  rewrite E. apply (IH _ _ (p + f)%Q); [now apply Hstep | lra].
Qed.

(** X19: once the phase of a released or fast-released note has passed
    [twopi], which nothing prevents since these states do not wrap, the
    note no longer hears the sensor: every frame reads outside the ring
    buffer, so the call does the same whatever readings the buffer holds.
    Only the moving average still counts. *)
Theorem released_past_cycle_ignores_ring (g g' : Globals) (env : Env)
    (inNumFrames : Z) (s : RS) (p f : Q) :
  release_like (state (rs_note s)) = true ->
  moving_average g = moving_average g' ->
  (length (c_buf g) <= Z.to_nat buf_size)%nat ->
  (length (c_buf g') <= Z.to_nat buf_size)%nat ->
  phase (rs_note s) = Fin p -> (twopi_q <= p)%Q ->
  fmul (Frequency env) (fdiv twopi (SampleRate env)) = Fin f -> (0 <= f)%Q ->
  Render g env inNumFrames s = Render g' env inNumFrames s.
Proof.
  intros St Hma L L' Hp Pp Hf Pf.
  destruct (int_of_UInt32 (mNumberBuffers (rs_abl s)) >? 2) eqn:H.
  - now rewrite !Render_rejects.
  - pose proof (Render_bufs g env inNumFrames s H) as B.
    pose proof (Render_bufs g' env inNumFrames s H) as B'.
    destruct (Render_run g env inNumFrames s H) as [b E].
    destruct (Render_run g' env inNumFrames s H) as [b' E'].
    rewrite E in *. rewrite E' in *.
    cbn [snd rs_abl mBuffers] in B, B'. subst b b'.
    do 3 f_equal. unfold render_bufs.
    destruct (state (rs_note s)); try discriminate; cbn [frame_step];
      apply (block_bufs_past_cycle g g' env _ _ f Hma L L' Pf) with (p := p);
      try assumption;
      intros n q Hq; cbn [release_note fast_release_note phase];
      rewrite Hq; unfold freq; rewrite Hf; reflexivity.
Qed.

(** X19 on a released note at phase 7: a buffer holding 500 and a buffer
    holding 3 give the same call. *)
Lemma released_past_cycle_ignores_ring_witness :
  Render (mkGlobals [500] (Fin 51)) test_env 2
    (mkRS (test_note kNoteState_Released 7 1) (mono 2) [])
  = Render (mkGlobals [3] (Fin 51)) test_env 2
      (mkRS (test_note kNoteState_Released 7 1) (mono 2) []).
Proof.
  refine (released_past_cycle_ignores_ring (mkGlobals [500] (Fin 51))
            (mkGlobals [3] (Fin 51)) test_env 2
            (mkRS (test_note kNoteState_Released 7 1) (mono 2) [])
            7 (440 * (twopi_q / 44100))
            eq_refl eq_refl _ _ eq_refl _ eq_refl _);
    try (simpl; lia); vm_compute; congruence.
Defined.

(** * Properties of the parameters *)

Section ParameterFacts.

Variable kAudioUnitScope_Global : Z.
Variable kAudioUnitErr_InvalidScope : Z.
Variable kAudioUnitErr_InvalidParameter : Z.
Variable kAudioUnitParameterFlag_DisplaySquareRoot : Z.
Variable kAudioUnitParameterFlag_IsWritable : Z.
Variable kAudioUnitParameterFlag_IsReadable : Z.
Variable kAudioUnitParameterUnit_LinearGain : Z.
Variable kAudioUnitParameterUnit_Seconds : Z.
Variable SetAudioUnitParameterDisplayType : Z -> Z -> Z.
Variable FillInParameterName :
  AudioUnitParameterInfo -> CFStringRef -> bool -> AudioUnitParameterInfo.

Local Notation "'GetInfo'" :=
  (GetParameterInfo kAudioUnitScope_Global kAudioUnitErr_InvalidScope
     kAudioUnitErr_InvalidParameter kAudioUnitParameterFlag_DisplaySquareRoot
     kAudioUnitParameterFlag_IsWritable kAudioUnitParameterFlag_IsReadable
     kAudioUnitParameterUnit_LinearGain kAudioUnitParameterUnit_Seconds
     SetAudioUnitParameterDisplayType FillInParameterName).

(** X20: [GetParameterInfo] succeeds exactly for the global scope and the
    parameter ids 0, 1 and 2.  For any other scope it returns the
    invalid-scope status, whatever the id; for the global scope and any
    other id the invalid-parameter status; and in both cases the parameter
    info it was handed is left untouched. *)
Theorem GetParameterInfo_status (inScope inParameterID : Z)
    (info : AudioUnitParameterInfo) :
  (inScope <> kAudioUnitScope_Global ->
   GetInfo inScope inParameterID info = (kAudioUnitErr_InvalidScope, info))
  /\ (inScope = kAudioUnitScope_Global ->
      ~ 0 <= inParameterID <= 2 ->
      GetInfo inScope inParameterID info
      = (kAudioUnitErr_InvalidParameter, info))
  /\ (inScope = kAudioUnitScope_Global ->
      0 <= inParameterID <= 2 ->
      fst (GetInfo inScope inParameterID info) = noErr).
Proof.
  unfold GetParameterInfo, kGlobalVolumeParam, kGlobalAmpAttackParam,
    kGlobalAmpReleaseParam.
  repeat split.
  - intro H. destruct (Z.eqb_spec inScope kAudioUnitScope_Global);
      [contradiction | reflexivity].
  - intros -> H. rewrite Z.eqb_refl. cbn [negb].
    destruct (Z.eqb_spec inParameterID 0); [lia |].
    destruct (Z.eqb_spec inParameterID 1); [lia |].
    destruct (Z.eqb_spec inParameterID 2); [lia | reflexivity].
  - intros -> H. rewrite Z.eqb_refl. cbn [negb].
    destruct (Z.eqb_spec inParameterID 0); [reflexivity |].
    destruct (Z.eqb_spec inParameterID 1); [reflexivity |].
    destruct (Z.eqb_spec inParameterID 2); [reflexivity | lia].
Qed.

(** X21: what a successful [GetParameterInfo] announces.  The default lies
    between the minimum and the maximum; the three parameters get the same
    flags, the ones assigned after the name is filled in, so that flags set
    by [FillInParameterName] do not survive; attack and release time share
    the range 0.001 to 5 and the default 0.001, the volume has the range 0
    to 1 and the default 1. *)
Theorem GetParameterInfo_ranges (inParameterID : Z)
    (info : AudioUnitParameterInfo) :
  0 <= inParameterID <= 2 ->
  let out := snd (GetInfo kAudioUnitScope_Global inParameterID info) in
  (minValue out <= defaultValue out <= maxValue out)%Q
  /\ flags out =
     parameter_flags kAudioUnitParameterFlag_DisplaySquareRoot
       kAudioUnitParameterFlag_IsWritable kAudioUnitParameterFlag_IsReadable
       SetAudioUnitParameterDisplayType
  /\ (minValue out, maxValue out, defaultValue out) =
     if inParameterID =? kGlobalVolumeParam
     then (0%Q, 1%Q, 1%Q) else ((1 # 1000)%Q, 5%Q, (1 # 1000)%Q).
Proof.
  intro H. unfold GetParameterInfo, kGlobalVolumeParam,
    kGlobalAmpAttackParam, kGlobalAmpReleaseParam.
  rewrite Z.eqb_refl. cbn [negb].
  destruct (Z.eqb_spec inParameterID 0);
    [| destruct (Z.eqb_spec inParameterID 1);
       [| destruct (Z.eqb_spec inParameterID 2); [| lia]]];
    cbn; repeat split; discriminate.
Qed.


End ParameterFacts.

(** X20 and X21 with the values of the audio unit headers for the scope
    and the two statuses. *)
Lemma GetParameterInfo_status_witness :
  GetParameterInfo 0 (-10866) (-10878) 65536 2147483648 1073741824 5 4
    Z.lor name_only 1 0 blank_info = (-10866, blank_info)
  /\ GetParameterInfo 0 (-10866) (-10878) 65536 2147483648 1073741824 5 4
       Z.lor name_only 0 3 blank_info = (-10878, blank_info)
  /\ fst (GetParameterInfo 0 (-10866) (-10878) 65536 2147483648 1073741824
            5 4 Z.lor name_only 0 2 blank_info) = noErr.
Proof.
  pose proof (GetParameterInfo_status 0 (-10866) (-10878) 65536 2147483648
                1073741824 5 4 Z.lor name_only) as H.
  split; [| split].
  - apply (proj1 (H 1 0 blank_info)). lia.
  - apply (proj1 (proj2 (H 0 3 blank_info))); [reflexivity | lia].
  - apply (proj2 (proj2 (H 0 2 blank_info))); [reflexivity | lia].
Defined.

Lemma GetParameterInfo_ranges_witness :
  (minValue (snd (GetParameterInfo 0 (-10866) (-10878) 65536 2147483648
                    1073741824 5 4 Z.lor name_only 0 1 blank_info))
   <= defaultValue (snd (GetParameterInfo 0 (-10866) (-10878) 65536
                           2147483648 1073741824 5 4 Z.lor name_only 0 1
                           blank_info))
   <= maxValue (snd (GetParameterInfo 0 (-10866) (-10878) 65536 2147483648
                       1073741824 5 4 Z.lor name_only 0 1 blank_info)))%Q
  /\ flags (snd (GetParameterInfo 0 (-10866) (-10878) 65536 2147483648
                   1073741824 5 4 Z.lor name_only 0 1 blank_info))
     = parameter_flags 65536 2147483648 1073741824 Z.lor
  /\ (minValue (snd (GetParameterInfo 0 (-10866) (-10878) 65536 2147483648
                       1073741824 5 4 Z.lor name_only 0 1 blank_info)),
      maxValue (snd (GetParameterInfo 0 (-10866) (-10878) 65536 2147483648
                       1073741824 5 4 Z.lor name_only 0 1 blank_info)),
      defaultValue (snd (GetParameterInfo 0 (-10866) (-10878) 65536
                           2147483648 1073741824 5 4 Z.lor name_only 0 1
                           blank_info)))
     = ((1 # 1000)%Q, 5%Q, (1 # 1000)%Q).
Proof.
  apply (GetParameterInfo_ranges 0 (-10866) (-10878) 65536 2147483648
           1073741824 5 4 Z.lor name_only 1 blank_info).
  lia.
Defined.

(** * [pow5] *)

(** X23: [pow5] is the odd fifth power.  It commutes with the change of
    sign on every value, infinite ones and NaN included; on a finite value
    it is the fifth power, and between -1 and 1 it keeps the sign and never
    increases the magnitude, so it maps that interval into itself. *)
Theorem pow5_odd_contraction (x : fnum) (q : Q) :
  (- 1 <= q <= 1)%Q ->
  feq (pow5 (fopp x)) (fopp (pow5 x))
  /\ exists y,
       pow5 (Fin q) = Fin y
       /\ (y == q ^ 5)%Q
       /\ (0 <= q -> 0 <= y <= q)%Q
       /\ (q <= 0 -> q <= y <= 0)%Q.
Proof.
  intro H. split.
  - destruct x as [a | | |]; cbn; try exact I. ring.
  - exists (q * q * (q * q) * q)%Q. split; [reflexivity |].
    assert (S0 : (0 <= q * q)%Q) by nra.
    assert (S1 : (q * q <= 1)%Q) by nra.
    assert (F0 : (0 <= q * q * (q * q))%Q) by nra.
    assert (F1 : (q * q * (q * q) <= 1)%Q) by nra.
    split; [unfold Qpower; simpl; ring |].
    split; intro; split; nra.
Qed.

(** X23 at 1/2: the fifth power is 1/32. *)
Lemma pow5_odd_contraction_witness :
  exists y,
    pow5 (Fin (1 # 2)) = Fin y
    /\ (y == (1 # 2) ^ 5)%Q
    /\ (0 <= 1 # 2 -> 0 <= y <= 1 # 2)%Q
    /\ ((1 # 2) <= 0 -> (1 # 2) <= y <= 0)%Q.
Proof.
  refine (proj2 (pow5_odd_contraction (Fin (1 # 2)) (1 # 2) _)).
  split; discriminate.
Defined.
